(** * A limit order book with lazy best-price discovery

    Shallow embedding of [OrderBook] (src/one.py) and the proofs of its
    specification.

    Representation choices.
    - Prices are exact rationals ([Qc]); quantities are integers ([Z]).
    - [time.time()] is an input of [add_order]: the clock reading is passed
      in as [now].
    - [Order] objects are shared by reference between the id-map
      [self.orders] and the per-price lists.  The id-map is the object
      store; the per-price lists hold the ids as references into it.
    - [defaultdict(list)] is a [gmap] together with [dd_get], which creates
      the key on a read of an absent key, as [defaultdict.__getitem__] does.
    - [heapq] is modelled by its contract: the heap is kept as a list sorted
      by the tuple order, [heap[0]] is its head and [heappop] drops the head.
      The order on (price, timestamp, id) tuples is total, so [heap[0]] and
      the results of successive pops depend on the multiset of pushed tuples
      only.
    - A raised exception ([ValueError] from [list.remove]) is [None]. *)

From Stdlib Require Import ZArith QArith Qcanon Sorted.
From stdpp Require Import gmap strings list fin_maps.

Open Scope Z_scope.

(** ** Data model *)

Record Order := mkOrder {
  order_id : string;
  side : string;          (* 'buy'; every other value is treated as sell *)
  price : Qc;
  quantity : Z;
  timestamp : Z
}.

(** A heap tuple [(key, timestamp, order_id)]; the key is [-price] on the
    buy heap and [price] on the sell heap. *)
Record Entry := mkEntry {
  e_key : Qc;
  e_ts : Z;
  e_id : string
}.

Record Trade := mkTrade {
  buy_order_id : string;
  sell_order_id : string;
  t_price : Qc;
  t_quantity : Z
}.

Record OrderBook := mkBook {
  buy_orders : list Entry;
  sell_orders : list Entry;
  orders : gmap string Order;
  price_levels_buy : gmap Qc (list string);
  price_levels_sell : gmap Qc (list string)
}.

Definition empty_book : OrderBook := mkBook [] [] ∅ ∅ ∅.

(** The two symmetric branches of every method differ in the pair of
    structures they touch and in the sign of the heap key. *)
Inductive Side := Buy | Sell.

Global Instance Side_eq_dec : EqDecision Side.
Proof. solve_decision. Defined.

Definition side_of (s : string) : Side :=
  if String.eqb s "buy" then Buy else Sell.

Definition levels (sd : Side) (b : OrderBook) : gmap Qc (list string) :=
  match sd with Buy => price_levels_buy b | Sell => price_levels_sell b end.

Definition heap (sd : Side) (b : OrderBook) : list Entry :=
  match sd with Buy => buy_orders b | Sell => sell_orders b end.

Definition set_levels (sd : Side) (L : gmap Qc (list string)) (b : OrderBook)
  : OrderBook :=
  match sd with
  | Buy => mkBook (buy_orders b) (sell_orders b) (orders b) L (price_levels_sell b)
  | Sell => mkBook (buy_orders b) (sell_orders b) (orders b) (price_levels_buy b) L
  end.

Definition set_heap (sd : Side) (h : list Entry) (b : OrderBook) : OrderBook :=
  match sd with
  | Buy => mkBook h (sell_orders b) (orders b) (price_levels_buy b) (price_levels_sell b)
  | Sell => mkBook (buy_orders b) h (orders b) (price_levels_buy b) (price_levels_sell b)
  end.

Definition set_orders (os : gmap string Order) (b : OrderBook) : OrderBook :=
  mkBook (buy_orders b) (sell_orders b) os (price_levels_buy b) (price_levels_sell b).

Definition heap_key (sd : Side) (p : Qc) : Qc :=
  match sd with Buy => (- p)%Qc | Sell => p end.

(** ** Python primitives *)

Definition Qc_ltb (a b : Qc) : bool :=
  match (a ?= b)%Qc with Lt => true | _ => false end.

(** Tuple comparison [a < b], lexicographic. *)
Definition entry_lt (a b : Entry) : bool :=
  match (e_key a ?= e_key b)%Qc with
  | Lt => true
  | Gt => false
  | Eq =>
    match (e_ts a ?= e_ts b)%Z with
    | Lt => true
    | Gt => false
    | Eq => String.ltb (e_id a) (e_id b)
    end
  end.

(** [heapq.heappush]. *)
Fixpoint heappush (h : list Entry) (e : Entry) : list Entry :=
  match h with
  | [] => [e]
  | x :: h' => if entry_lt e x then e :: h else x :: heappush h' e
  end.

(** The list stored under [p], or the empty list. *)
Definition bucket (L : gmap Qc (list string)) (p : Qc) : list string :=
  default [] (L !! p).

(** [d[p]] on a [defaultdict(list)]: an absent key is created. *)
Definition dd_get (L : gmap Qc (list string)) (p : Qc)
  : list string * gmap Qc (list string) :=
  match L !! p with
  | Some l => (l, L)
  | None => ([], <[p := []]> L)
  end.

(** [l.remove(x)]: the first occurrence is dropped; [ValueError] when there
    is none. *)
Fixpoint list_remove (x : string) (l : list string) : option (list string) :=
  match l with
  | [] => None
  | y :: l' => if decide (y = x) then Some l' else (y ::.) <$> list_remove x l'
  end.

(** [d[p].remove(id)] followed by [if not d[p]: del d[p]]. *)
Definition remove_from_level (L : gmap Qc (list string)) (p : Qc) (id : string)
  : option (gmap Qc (list string)) :=
  match list_remove id (bucket L p) with
  | None => None
  | Some [] => Some (delete p L)
  | Some l => Some (<[p := l]> L)
  end.

(** [d[p].append(id)]. *)
Definition append_to_level (L : gmap Qc (list string)) (p : Qc) (id : string)
  : gmap Qc (list string) :=
  <[p := bucket L p ++ [id]]> L.

Definition set_price (p : Qc) (o : Order) : Order :=
  mkOrder (order_id o) (side o) p (quantity o) (timestamp o).

Definition set_quantity (q : Z) (o : Order) : Order :=
  mkOrder (order_id o) (side o) (price o) q (timestamp o).

Definition sub_quantity (q : Z) (o : Order) : Order :=
  set_quantity (quantity o - q) o.

(** ** Operations *)

Definition add_order (now : Z) (id sd : string) (p : Qc) (q : Z) (b : OrderBook)
  : bool * OrderBook :=
  match orders b !! id with
  | Some _ => (false, b)
  | None =>
    let order := mkOrder id sd p q now in
    let s := side_of sd in
    let b1 := set_orders (<[id := order]> (orders b)) b in
    let b2 := set_heap s (heappush (heap s b1) (mkEntry (heap_key s p) now id)) b1 in
    (true, set_levels s (append_to_level (levels s b2) p id) b2)
  end.

Definition cancel_order (id : string) (b : OrderBook) : option (bool * OrderBook) :=
  match orders b !! id with
  | None => Some (false, b)
  | Some order =>
    let s := side_of (side order) in
    match remove_from_level (levels s b) (price order) id with
    | None => None
    | Some L => Some (true, set_orders (delete id (orders b)) (set_levels s L b))
    end
  end.

Definition modify_order (id : string) (new_price : option Qc)
    (new_quantity : option Z) (b : OrderBook) : option (bool * OrderBook) :=
  match orders b !! id with
  | None => Some (false, b)
  | Some order =>
    let old_price := price order in
    let s := side_of (side order) in
    let moved :=
      match new_price with
      | None => Some b
      | Some np =>
        match remove_from_level (levels s b) old_price id with
        | None => None
        | Some L =>
          let b1 := set_orders (<[id := set_price np order]> (orders b)) b in
          let b2 := set_levels s (append_to_level L np id) b1 in
          Some (set_heap s
                  (heappush (heap s b2) (mkEntry (heap_key s np) (timestamp order) id))
                  b2)
        end
      end in
    match moved with
    | None => None
    | Some b1 =>
      Some (true,
            match new_quantity with
            | None => b1
            | Some nq => set_orders (alter (set_quantity nq) id (orders b1)) b1
            end)
    end
  end.

(** The discovery loop shared by [get_best_bid] and [get_best_ask]: entries
    whose id is not in the id-map are popped; the first live entry stays. *)
Fixpoint discover (live : gmap string Order) (h : list Entry)
  : option Qc * list Entry :=
  match h with
  | [] => (None, [])
  | e :: h' =>
    match live !! e_id e with
    | Some _ => (Some (e_key e), h)
    | None => discover live h'
    end
  end.

Definition get_best_bid (b : OrderBook) : option Qc * OrderBook :=
  let '(r, h) := discover (orders b) (buy_orders b) in
  (Qcopp <$> r, set_heap Buy h b).

Definition get_best_ask (b : OrderBook) : option Qc * OrderBook :=
  let '(r, h) := discover (orders b) (sell_orders b) in
  (r, set_heap Sell h b).

Definition get_spread (b : OrderBook) : option Qc * OrderBook :=
  let '(best_bid, b1) := get_best_bid b in
  let '(best_ask, b2) := get_best_ask b1 in
  (match best_bid, best_ask with
   | Some bb, Some ba => Some (ba - bb)%Qc
   | _, _ => None
   end, b2).

(** [sum(order.quantity for order in ids)], the references resolved in the
    store. *)
Fixpoint sum_quantity (os : gmap string Order) (ids : list string) : option Z :=
  match ids with
  | [] => Some 0
  | id :: rest =>
    match os !! id, sum_quantity os rest with
    | Some o, Some total => Some (quantity o + total)
    | _, _ => None
    end
  end.

Definition price_of_key (sd : Side) (k : Qc) : Qc :=
  match sd with Buy => (- k)%Qc | Sell => k end.

(** One of the two loops of [get_order_book_snapshot], over the copy [temp]
    of the heap; [acc] is [bids] (or [asks]) and [seen] the set of prices
    already reported. *)
Fixpoint snapshot_side (sd : Side) (depth : Z) (temp : list Entry)
    (seen : gset Qc) (acc : list (Qc * Z)) (b : OrderBook)
  : option (list (Qc * Z) * OrderBook) :=
  match temp with
  | [] => Some (acc, b)
  | e :: temp' =>
    if (Z.of_nat (length acc) <? depth)%Z then
      let p := price_of_key sd (e_key e) in
      if bool_decide (p ∉ seen) && bool_decide (is_Some (orders b !! e_id e)) then
        let '(ids, L) := dd_get (levels sd b) p in
        match sum_quantity (orders b) ids with
        | None => None
        | Some total =>
          snapshot_side sd depth temp' ({[p]} ∪ seen) (acc ++ [(p, total)])
            (set_levels sd L b)
        end
      else snapshot_side sd depth temp' seen acc b
    else Some (acc, b)
  end.

Record Snapshot := mkSnapshot {
  bids : list (Qc * Z);
  asks : list (Qc * Z)
}.

Definition get_order_book_snapshot (depth : Z) (b : OrderBook)
  : option (Snapshot * OrderBook) :=
  match snapshot_side Buy depth (buy_orders b) ∅ [] b with
  | None => None
  | Some (bs, b1) =>
    match snapshot_side Sell depth (sell_orders b1) ∅ [] b1 with
    | None => None
    | Some (ss, b2) => Some (mkSnapshot bs ss, b2)
    end
  end.

(** What one pass through the body of [while True] does. *)
Inductive Iter :=
| Break (b : OrderBook)
| Continue (t : Trade) (b : OrderBook).

(** [if order.quantity == 0: self.cancel_order(order.order_id)]. *)
Definition retire_if_filled (o : Order) (b : OrderBook) : option OrderBook :=
  if (quantity o =? 0)%Z then snd <$> cancel_order (order_id o) b else Some b.

(** Lines 151-177: the crossing of the front orders of the two queues at
    the discovered prices. *)
Definition cross (best_bid best_ask : Qc) (b : OrderBook) : option Iter :=
  let '(buys, Lb) := dd_get (price_levels_buy b) best_bid in
  let b1 := set_levels Buy Lb b in
  let '(sells, Ls) := dd_get (price_levels_sell b1) best_ask in
  let b2 := set_levels Sell Ls b1 in
  match buys, sells with
  | bid :: _, sid :: _ =>
    match orders b2 !! bid, orders b2 !! sid with
    | Some buy_order, Some sell_order =>
      let match_quantity := Z.min (quantity buy_order) (quantity sell_order) in
      let t := mkTrade (order_id buy_order) (order_id sell_order)
                 (price sell_order) match_quantity in
      let os1 := alter (sub_quantity match_quantity) bid (orders b2) in
      let os2 := alter (sub_quantity match_quantity) sid os1 in
      let b3 := set_orders os2 b2 in
      match os2 !! bid, os2 !! sid with
      | Some buy_order', Some sell_order' =>
        match retire_if_filled buy_order' b3 with
        | None => None
        | Some b4 =>
          match retire_if_filled sell_order' b4 with
          | None => None
          | Some b5 => Some (Continue t b5)
          end
        end
      | _, _ => None
      end
    | _, _ => None
    end
  | _, _ => Some (Break b2)
  end.

Definition match_iter (b : OrderBook) : option Iter :=
  let '(best_bid, b1) := get_best_bid b in
  let '(best_ask, b2) := get_best_ask b1 in
  match best_bid, best_ask with
  | Some bb, Some ba =>
    if Qc_ltb bb ba then Some (Break b2) else cross bb ba b2
  | _, _ => Some (Break b2)
  end.

(** The loop of [match_orders]; [matches] is the list built by [append]. *)
Fixpoint match_loop (fuel : nat) (matches : list Trade) (b : OrderBook)
  : option (list Trade * OrderBook) :=
  match fuel with
  | O => None
  | S fuel' =>
    match match_iter b with
    | None => None
    | Some (Break b') => Some (matches, b')
    | Some (Continue t b') => match_loop fuel' (matches ++ [t]) b'
    end
  end.

(** Every pass that does not break retires an order, so the loop runs at
    most once more than there are orders in the id-map (see
    [match_orders_returns]). *)
Definition match_orders (b : OrderBook) : option (list Trade * OrderBook) :=
  match_loop (S (size (orders b))) [] b.

(** ** Sequences of calls *)

Inductive Op :=
| Add (now : Z) (id sd : string) (p : Qc) (q : Z)
| Cancel (id : string)
| Modify (id : string) (new_price : option Qc) (new_quantity : option Z)
| BestBid
| BestAsk
| Spread
| TakeSnapshot (depth : Z)
| Match.

Definition step (o : Op) (b : OrderBook) : option OrderBook :=
  match o with
  | Add now id sd p q => Some (add_order now id sd p q b).2
  | Cancel id => snd <$> cancel_order id b
  | Modify id np nq => snd <$> modify_order id np nq b
  | BestBid => Some (get_best_bid b).2
  | BestAsk => Some (get_best_ask b).2
  | Spread => Some (get_spread b).2
  | TakeSnapshot depth => snd <$> get_order_book_snapshot depth b
  | Match => snd <$> match_orders b
  end.

Fixpoint run (ops : list Op) (b : OrderBook) : option OrderBook :=
  match ops with
  | [] => Some b
  | o :: ops' =>
    match step o b with
    | None => None
    | Some b' => run ops' b'
    end
  end.

(** The states a caller can bring a fresh book into. *)
Definition reachable (b : OrderBook) : Prop :=
  ∃ ops, run ops empty_book = Some b.

(** Decimal literals: [dec n d] is n/d. *)
Definition dec (n : Z) (d : positive) : Qc := Q2Qc (n # d).

(** ** Display and the scenario of the source *)

(** What [display_order_book] and [test_order_book] hand to [print], line by
    line.  The fixed texts are kept; a number is kept as the value that the
    format specification ([8.2f], [6d], [.2f]) or [repr] renders, the
    rendering itself is not modelled.  [SpreadRow] stands for the line
    [Spread: ...] with the empty line before it, [CountRow] for a label with
    [len(matches)], [TradeRow] for the line of one trade. *)
Inductive Line :=
| Text (s : string)
| LevelRow (p : Qc) (q : Z)
| SpreadRow (s : Qc)
| CountRow (label : string) (n : nat)
| TradeRow (t : Trade).

(** [blank_then s] is the text of a [print] whose string starts with a
    newline. *)
Definition blank_then (s : string) : string :=
  String (Ascii.ascii_of_nat 10) s.

Definition rule_equals : string := "==============================".
Definition rule_dashes : string := "------------------------------".
Definition rule_wide : string :=
  "==================================================".

Definition level_rows (lv : list (Qc * Z)) : list Line :=
  (λ x, LevelRow (fst x) (snd x)) <$> lv.

(** The asks are printed worst first, so that the best ask stands next to
    the best bid. *)
Definition display_order_book (depth : Z) (b : OrderBook)
  : option (list Line * OrderBook) :=
  match get_order_book_snapshot depth b with
  | None => None
  | Some (snapshot, b1) =>
    let '(spread, b2) := get_spread b1 in
    Some ([Text "ORDER BOOK"; Text rule_equals; Text "ASKS (Sell Orders)"]
          ++ level_rows (reverse (asks snapshot))
          ++ [Text rule_dashes; Text "BIDS (Buy Orders)"]
          ++ level_rows (bids snapshot)
          ++ match spread with Some sp => [SpreadRow sp] | None => [] end
          ++ [Text rule_equals],
          b2)
  end.

(** The lines printed for the result of a [match_orders] call. *)
Definition report_matches (label : string) (matches : list Trade) : list Line :=
  CountRow label (length matches) :: (TradeRow <$> matches).

(** The book that [test_order_book] builds, with the clock readings of its
    eight [add_order] calls as inputs; the depth of every display is the
    default, 5. *)
Definition test_order_book (t1 t2 t3 t4 t5 t6 t7 t8 : Z)
  : option (list Line * list Trade * list Trade * OrderBook) :=
  let ob := empty_book in
  let ob := (add_order t1 "buy1" "buy" (dec 100 1) 10 ob).2 in
  let ob := (add_order t2 "buy2" "buy" (dec 995 10) 5 ob).2 in
  let ob := (add_order t3 "buy3" "buy" (dec 101 1) 8 ob).2 in
  let ob := (add_order t4 "sell1" "sell" (dec 102 1) 12 ob).2 in
  let ob := (add_order t5 "sell2" "sell" (dec 103 1) 7 ob).2 in
  let ob := (add_order t6 "sell3" "sell" (dec 1015 10) 15 ob).2 in
  match display_order_book 5 ob with
  | None => None
  | Some (out1, ob) =>
    let ob := (add_order t7 "buy4" "buy" (dec 1025 10) 6 ob).2 in
    match match_orders ob with
    | None => None
    | Some (matches1, ob) =>
      match display_order_book 5 ob with
      | None => None
      | Some (out2, ob) =>
        match cancel_order "buy2" ob with
        | None => None
        | Some (_, ob) =>
          match display_order_book 5 ob with
          | None => None
          | Some (out3, ob) =>
            match modify_order "buy1" (Some (dec 99 1)) (Some 15) ob with
            | None => None
            | Some (_, ob) =>
              match display_order_book 5 ob with
              | None => None
              | Some (out4, ob) =>
                let ob := (add_order t8 "sell4" "sell" (dec 99 1) 10 ob).2 in
                match match_orders ob with
                | None => None
                | Some (matches2, ob) =>
                  match display_order_book 5 ob with
                  | None => None
                  | Some (out5, ob) =>
                    Some ([Text "Testing Order Book Implementation";
                           Text rule_wide;
                           Text (blank_then "1. Adding orders...")]
                          ++ out1
                          ++ [Text (blank_then
                                   "2. Adding overlapping orders (should trigger matches)...")]
                          ++ report_matches "Matches found" matches1
                          ++ out2
                          ++ [Text (blank_then "3. Testing order cancellation...");
                              Text "Cancelled buy2"]
                          ++ out3
                          ++ [Text (blank_then "4. Testing order modification...");
                              Text "Modified buy1: price=99.0, quantity=15"]
                          ++ out4
                          ++ [Text (blank_then "5. Adding more orders for matching...")]
                          ++ report_matches "New matches" matches2
                          ++ out5,
                          matches1, matches2, ob)
                  end
                end
              end
            end
          end
        end
      end
    end
  end.

(** ** Vocabulary of the invariants and of the specification *)

(** The queue at one (side, price). *)
Definition level (sd : Side) (p : Qc) (b : OrderBook) : list string :=
  bucket (levels sd b) p.

Definition keys_sorted (h : list Entry) : Prop :=
  StronglySorted Qcle (e_key <$> h).

(** The heap tuple pushed for an order at its current price. *)
Definition entry_of (o : Order) : Entry :=
  mkEntry (heap_key (side_of (side o)) (price o)) (timestamp o) (order_id o).

(** The invariant of the book: the id-map and the two ledgers describe the
    same set of resting orders, the heaps are ordered, and every resting
    order has an entry for its current price on the heap of its side. *)
Record wf (b : OrderBook) : Prop := mk_wf {
  wf_id : ∀ id o, orders b !! id = Some o → order_id o = id;
  wf_rests : ∀ id o, orders b !! id = Some o →
    id ∈ level (side_of (side o)) (price o) b;
  wf_live : ∀ sd p id, id ∈ level sd p b →
    ∃ o, orders b !! id = Some o ∧ side_of (side o) = sd ∧ price o = p;
  wf_nodup : ∀ sd p, NoDup (level sd p b);
  wf_sorted : ∀ sd, keys_sorted (heap sd b);
  wf_cover : ∀ id o, orders b !! id = Some o →
    entry_of o ∈ heap (side_of (side o)) b
}.

(** Orders may change in quantity without touching [wf]. *)
Definition same_place (o o' : Order) : Prop :=
  order_id o' = order_id o ∧ side o' = side o ∧ price o' = price o ∧
  timestamp o' = timestamp o.

(** [insert_order] is the common tail of [add_order] and of the price branch
    of [modify_order]: the order goes into the id-map, to the back of its
    queue and onto its heap. *)
Definition insert_order (o : Order) (b : OrderBook) : OrderBook :=
  let s := side_of (side o) in
  let b1 := set_orders (<[order_id o := o]> (orders b)) b in
  let b2 :=
    set_heap s
      (heappush (heap s b1)
         (mkEntry (heap_key s (price o)) (timestamp o) (order_id o))) b1 in
  set_levels s (append_to_level (levels s b2) (price o) (order_id o)) b2.

(** The effect of [if new_quantity is not None: order.quantity = ...]. *)
Definition amend_quantity (nq : option Z) (id : string) (b : OrderBook)
  : OrderBook :=
  match nq with
  | None => b
  | Some q => set_orders (alter (set_quantity q) id (orders b)) b
  end.

Definition get_best (sd : Side) (b : OrderBook) : option Qc * OrderBook :=
  match sd with Buy => get_best_bid b | Sell => get_best_ask b end.

(** The orders that a trade of [mq] between [bo] and [so] leaves resting. *)
Definition unfilled (mq : Z) (bo so : Order) (id : string) : Prop :=
  ¬ (id = order_id bo ∧ quantity bo = mq) ∧
  ¬ (id = order_id so ∧ quantity so = mq).

Global Instance unfilled_dec mq bo so id : Decision (unfilled mq bo so id).
Proof. unfold unfilled. apply _. Defined.

(** The state a trade leads to, in terms of the state before it. *)
Record traded (b : OrderBook) (bo so : Order) (b' : OrderBook) : Prop := {
  traded_orders : ∀ id,
    orders b' !! id =
    if decide (unfilled (Z.min (quantity bo) (quantity so)) bo so id)
    then alter (sub_quantity (Z.min (quantity bo) (quantity so))) (order_id so)
           (alter (sub_quantity (Z.min (quantity bo) (quantity so)))
              (order_id bo) (orders b)) !! id
    else None;
  traded_level : ∀ sd p,
    level sd p b' =
    filter (unfilled (Z.min (quantity bo) (quantity so)) bo so) (level sd p b);
  traded_heap : ∀ sd, heap sd b' = heap sd b
}.

(** The book after the two discovery calls that open every pass. *)
Definition settled (b : OrderBook) : OrderBook :=
  (get_best_ask (get_best_bid b).2).2.

(** Why a pass ends: a side has no live entry, the prices do not cross, or
    the queue at a discovered price is empty. *)
Definition quiet (b : OrderBook) : Prop :=
  match (get_best_bid b).1, (get_best_ask b).1 with
  | Some bb, Some ba =>
    (bb < ba)%Qc ∨ level Buy bb b = [] ∨ level Sell ba b = []
  | _, _ => True
  end.

(** The trades of one call of [match_orders] and the state it leaves. *)
Inductive pass : OrderBook → list Trade → OrderBook → Prop :=
| pass_break b b' :
    match_iter b = Some (Break b') → pass b [] b'
| pass_continue b t b1 ts b' :
    match_iter b = Some (Continue t b1) → pass b1 ts b' → pass b (t :: ts) b'.

(** [better sd p1 p2]: on side [sd], price [p1] is strictly better than
    [p2] (higher for bids, lower for asks). *)
Definition better (sd : Side) (p1 p2 : Qc) : Prop :=
  match sd with Buy => (p2 < p1)%Qc | Sell => (p1 < p2)%Qc end.

(** What one reported level must satisfy: a price not reported before,
    read off an entry whose id is in the id-map, with the total of the
    queue at that price. *)
Definition level_ok (sd : Side) (temp : list Entry) (seen : gset Qc)
    (b : OrderBook) (x : Qc * Z) : Prop :=
  (fst x ∉ seen) ∧
  (∃ e, e ∈ temp ∧ price_of_key sd (e_key e) = fst x ∧
        is_Some (orders b !! e_id e)) ∧
  sum_quantity (orders b) (level sd (fst x) b) = Some (snd x).

(** The entries of [temp] that the loop has not reported: their price was
    reported before, or the loop stopped at [depth] levels, all of them at
    least as good. *)
Definition accounted (sd : Side) (depth : Z) (seen : gset Qc)
    (all new : list (Qc * Z)) (e : Entry) : Prop :=
  price_of_key sd (e_key e) ∈ seen ∨
  price_of_key sd (e_key e) ∈ (fst <$> new) ∨
  ((depth <= Z.of_nat (length all))%Z ∧
   Forall (λ p', (heap_key sd p' <= e_key e)%Qc) (fst <$> new)).

(** On a side, the snapshot is the top of the book: the price of every
    resting order is reported, unless [depth] levels are reported that are
    all strictly better. *)
Definition top_of_book (sd : Side) (depth : Z) (b : OrderBook)
    (lv : list (Qc * Z)) : Prop :=
  ∀ id o, orders b !! id = Some o → side_of (side o) = sd →
    price o ∈ (fst <$> lv) ∨
    ((depth <= Z.of_nat (length lv))%Z ∧
     ∀ p', p' ∈ (fst <$> lv) → better sd p' (price o)).

(** Two books with the same id-map, the same queues and the same heaps;
    they can differ in price keys that hold an empty list only. *)
Definition same_book (b1 b2 : OrderBook) : Prop :=
  orders b1 = orders b2 ∧
  (∀ sd p, level sd p b1 = level sd p b2) ∧
  (∀ sd, heap sd b1 = heap sd b2).

(** [b'] is [b] after [cancel_order id] when nothing is left of the order,
    and [b] itself otherwise. *)
Definition retired (left : Z) (id : string) (b b' : OrderBook) : Prop :=
  if decide (left = 0) then cancel_order id b = Some (true, b') else b' = b.

(** [in_pass b0 b]: a call of [match_orders] on [b0] reaches the top of its
    loop in state [b]. *)
Inductive in_pass (b0 : OrderBook) : OrderBook → Prop :=
| in_pass_first : in_pass b0 b0
| in_pass_next b t b1 :
    in_pass b0 b → match_iter b = Some (Continue t b1) → in_pass b0 b1.

(** [A] stands before [B] in a queue. *)
Definition precedes (A B : string) (l : list string) : Prop :=
  ∃ l1 l2 l3, l = l1 ++ A :: l2 ++ B :: l3.

(** [b'] is [b] with some orders taken out: nothing is added to the id-map,
    and each queue is what is left of it, in the same order. *)
Definition shrinks (b b' : OrderBook) : Prop :=
  (∀ id, is_Some (orders b' !! id) → is_Some (orders b !! id)) ∧
  (∀ sd p, level sd p b' =
           filter (λ id, is_Some (orders b' !! id)) (level sd p b)).

Definition trade_id (sd : Side) (t : Trade) : string :=
  match sd with Buy => buy_order_id t | Sell => sell_order_id t end.

(** As long as both rest, [A] is before [B] in the queue at ([sd], [p]). *)
Definition in_order (A B : string) (sd : Side) (p : Qc) (b : OrderBook) : Prop :=
  is_Some (orders b !! A) → is_Some (orders b !! B) →
  precedes A B (level sd p b).

(** The calls that keep the claim's premise: after [B] is added, neither id
    is used for a new order and neither order is amended in price. *)
Definition unamended (A B : string) (o : Op) : Prop :=
  match o with
  | Add _ id _ _ _ => id ≠ A ∧ id ≠ B
  | Modify id (Some _) _ => id ≠ A ∧ id ≠ B
  | _ => True
  end.

(** No entry of a heap is stale in price: an entry whose id is in the
    id-map belongs to the heap of that order's side and records its current
    price.  Re-pricing an order, or cancelling it and adding its id again
    elsewhere, breaks this. *)
Definition no_stale (b : OrderBook) : Prop :=
  ∀ sd e o, e ∈ heap sd b → orders b !! e_id e = Some o →
    side_of (side o) = sd ∧ e_key e = heap_key sd (price o).

(** [no_stale] as a computation. *)
Definition no_stale_entry (live : gmap string Order) (sd : Side) (e : Entry)
  : bool :=
  match live !! e_id e with
  | None => true
  | Some o =>
    bool_decide (side_of (side o) = sd ∧ e_key e = heap_key sd (price o))
  end.

Definition no_staleb (b : OrderBook) : bool :=
  forallb (no_stale_entry (orders b) Buy) (buy_orders b) &&
  forallb (no_stale_entry (orders b) Sell) (sell_orders b).

(** A side without resting orders. *)
Definition side_empty (sd : Side) (b : OrderBook) : Prop :=
  ∀ id o, orders b !! id = Some o → side_of (side o) ≠ sd.

(** The state that the specification promises after [match_orders]. *)
Definition uncrossed (b : OrderBook) : Prop :=
  (∃ bb ba, (get_best_bid b).1 = Some bb ∧ (get_best_ask b).1 = Some ba ∧
            (bb < ba)%Qc) ∨
  side_empty Buy b ∨ side_empty Sell b.

(** [id] is the buy id or the sell id of one of the trades. *)
Definition traded_in (id : string) (ts : list Trade) : Prop :=
  Exists (λ t, buy_order_id t = id ∨ sell_order_id t = id) ts.

(** The sum of the quantities of the orders of one side in the id-map. *)
Definition side_quantity (sd : Side) (o : Order) : Z :=
  if decide (side_of (side o) = sd) then quantity o else 0.

Definition total_quantity (sd : Side) (os : gmap string Order) : Z :=
  map_fold (λ _ o acc, side_quantity sd o + acc) 0 os.

(** The sum of the quantities of a list of trades. *)
Definition traded_quantity (ts : list Trade) : Z :=
  foldr (λ t acc, t_quantity t + acc) 0 ts.

(** [if order.quantity == 0: cancel_order(...)], seen on the id-map. *)
Definition drop_filled (id : string) (os : gmap string Order)
  : gmap string Order :=
  match os !! id with
  | Some o => if decide (quantity o = 0) then delete id os else os
  | None => os
  end.

(** The id-map after a trade of [mq] between the orders at [bid] and [sid]. *)
Definition after_trade (mq : Z) (bid sid : string) (os : gmap string Order)
  : gmap string Order :=
  drop_filled sid
    (drop_filled bid
       (alter (sub_quantity mq) sid (alter (sub_quantity mq) bid os))).

(** Every resting order has a positive quantity. *)
Definition all_positive (b : OrderBook) : Prop :=
  ∀ id o, orders b !! id = Some o → 0 < quantity o.

(** Calls that do not amend a price, and the ids that a sequence of calls
    passes to [add_order]. *)
Definition no_reprice (o : Op) : Prop :=
  match o with Modify _ (Some _) _ => False | _ => True end.

Definition added_id (o : Op) : list string :=
  match o with Add _ id _ _ _ => [id] | _ => [] end.

Definition added_ids (ops : list Op) : list string :=
  ops ≫= added_id.

(** The header, the separator and the footer of a display. *)
Definition display_lines (snapshot : Snapshot) (spread : option Qc)
  : list Line :=
  [Text "ORDER BOOK"; Text rule_equals; Text "ASKS (Sell Orders)"]
  ++ level_rows (reverse (asks snapshot))
  ++ [Text rule_dashes; Text "BIDS (Buy Orders)"]
  ++ level_rows (bids snapshot)
  ++ match spread with Some sp => [SpreadRow sp] | None => [] end
  ++ [Text rule_equals].

(** ** Example books *)

(** The book that a sequence of calls leads to. *)
Definition book_of (ops : list Op) : OrderBook :=
  default empty_book (run ops empty_book).

(** The three orders of the worked example of the specification. *)
Definition demo_ops : list Op :=
  [Add 1 "buy1" "buy" (dec 100 1) 10;
   Add 2 "buy2" "buy" (dec 995 10) 5;
   Add 3 "sell1" "sell" (dec 102 1) 12].

(** The worked example with the crossing bid added, and the book after
    the first pass of the matching loop on it. *)
Definition fresh_cross_ops : list Op :=
  demo_ops ++ [Add 4 "buy3" "buy" (dec 103 1) 6].

Definition after_first_pass : OrderBook :=
  match match_iter (book_of fresh_cross_ops) with
  | Some (Continue _ b') => b'
  | _ => empty_book
  end.

(** Two bids at one price, the second added after the first, and an ask
    that fills the first and part of the second. *)
Definition fifo_start : OrderBook :=
  book_of [Add 1 "a1" "buy" (dec 100 1) 5].

Definition fifo_ops : list Op := [Add 3 "s1" "sell" (dec 100 1) 8].

Definition fifo_book : OrderBook :=
  default empty_book
    (run fifo_ops (add_order 2 "b2" "buy" (dec 100 1) 5 fifo_start).2).

Definition fifo_trades : list Trade :=
  [mkTrade "a1" "s1" (dec 100 1) 5; mkTrade "b2" "s1" (dec 100 1) 3].

(** The book that [match_orders] leaves of [fifo_book]. *)
Definition fifo_after : OrderBook :=
  default empty_book (snd <$> match_orders fifo_book).

(** An order re-priced from 105 to 95 leaves its entry for 105 on the buy
    heap; a bid at 101 and an ask at 100 rest as well. *)
Definition stale_ops : list Op :=
  [Add 1 "b1" "buy" (dec 105 1) 10;
   Modify "b1" (Some (dec 95 1)) None;
   Add 2 "b2" "buy" (dec 101 1) 5;
   Add 3 "s1" "sell" (dec 100 1) 7].

(** A bid re-priced from 105 to 95. *)
Definition repriced_ops : list Op :=
  [Add 1 "b1" "buy" (dec 105 1) 10; Modify "b1" (Some (dec 95 1)) None].

(** ** Lists and price levels *)

Lemma filter_ne_id (x : string) (l : list string) :
  x ∉ l → filter (λ y, y ≠ x) l = l.
Proof.
  induction l as [|y l IH]; [done|].
  rewrite not_elem_of_cons. intros [Hxy Hl].
  rewrite filter_cons_True by congruence. by rewrite IH.
Qed.

Lemma list_remove_elem_of (x : string) (l : list string) :
  NoDup l → x ∈ l → list_remove x l = Some (filter (λ y, y ≠ x) l).
Proof.
  induction l as [|y l IH]; intros Hnd Hin; [by apply elem_of_nil in Hin|].
  apply NoDup_cons in Hnd as [Hy Hnd]. simpl.
  destruct (decide (y = x)) as [->|Hne].
  - rewrite filter_cons_False by naive_solver. by rewrite filter_ne_id.
  - apply elem_of_cons in Hin as [->|Hin]; [done|].
    rewrite IH by done. simpl. by rewrite filter_cons_True.
Qed.

Lemma list_remove_None (x : string) (l : list string) :
  list_remove x l = None → x ∉ l.
Proof.
  induction l as [|y l IH]; simpl; [intros _; apply not_elem_of_nil|].
  destruct (decide (y = x)); [done|].
  destruct (list_remove x l); [done|].
  intros _. apply not_elem_of_cons. split; [congruence|by apply IH].
Qed.

Lemma bucket_dd_get L p p' : bucket (dd_get L p).2 p' = bucket L p'.
Proof.
  unfold dd_get, bucket. destruct (L !! p) eqn:E; [done|]. simpl.
  destruct (decide (p = p')) as [<-|Hne].
  - by rewrite lookup_insert_eq, E.
  - by rewrite lookup_insert_ne.
Qed.

Lemma dd_get_fst L p : (dd_get L p).1 = bucket L p.
Proof. unfold dd_get, bucket. by destruct (L !! p). Qed.

Lemma bucket_append_to_level L p id p' :
  bucket (append_to_level L p id) p' =
  if decide (p' = p) then bucket L p ++ [id] else bucket L p'.
Proof.
  unfold append_to_level. destruct (decide (p' = p)) as [->|Hne].
  - unfold bucket at 1. by rewrite lookup_insert_eq.
  - unfold bucket at 1 3. by rewrite lookup_insert_ne.
Qed.

Lemma remove_from_level_bucket L p id :
  NoDup (bucket L p) → id ∈ bucket L p →
  ∃ L', remove_from_level L p id = Some L' ∧
    ∀ p', bucket L' p' =
          if decide (p' = p) then filter (λ y, y ≠ id) (bucket L p)
          else bucket L p'.
Proof.
  intros Hnd Hin. unfold remove_from_level.
  rewrite (list_remove_elem_of _ _ Hnd Hin).
  destruct (filter _ (bucket L p)) as [|x l] eqn:E.
  - eexists; split; [done|]. intros p'. destruct (decide (p' = p)) as [->|Hne].
    + unfold bucket at 1. by rewrite lookup_delete_eq.
    + unfold bucket at 1 2. by rewrite lookup_delete_ne.
  - eexists; split; [done|]. intros p'. destruct (decide (p' = p)) as [->|Hne].
    + unfold bucket at 1. by rewrite lookup_insert_eq.
    + unfold bucket at 1 2. by rewrite lookup_insert_ne.
Qed.

Lemma remove_from_level_None L p id :
  remove_from_level L p id = None → id ∉ bucket L p.
Proof.
  unfold remove_from_level. destruct (list_remove id (bucket L p)) as [l|] eqn:E.
  - by destruct l.
  - intros _. by apply list_remove_None.
Qed.

(** ** The view of a book that the invariants speak about *)

Lemma level_set_levels sd p sd' L b :
  level sd p (set_levels sd' L b) =
  if decide (sd = sd') then bucket L p else level sd p b.
Proof. by destruct sd, sd'. Qed.

Lemma level_set_heap sd p sd' h b : level sd p (set_heap sd' h b) = level sd p b.
Proof. by destruct sd, sd'. Qed.

Lemma level_set_orders sd p os b : level sd p (set_orders os b) = level sd p b.
Proof. by destruct sd. Qed.

Lemma orders_set_levels sd L b : orders (set_levels sd L b) = orders b.
Proof. by destruct sd. Qed.

Lemma orders_set_heap sd h b : orders (set_heap sd h b) = orders b.
Proof. by destruct sd. Qed.

Lemma heap_set_levels sd sd' L b : heap sd (set_levels sd' L b) = heap sd b.
Proof. by destruct sd, sd'. Qed.

Lemma heap_set_orders sd os b : heap sd (set_orders os b) = heap sd b.
Proof. by destruct sd. Qed.

Lemma heap_set_heap sd sd' h b :
  heap sd (set_heap sd' h b) = if decide (sd = sd') then h else heap sd b.
Proof. by destruct sd, sd'. Qed.

Lemma levels_set_heap sd sd' h b : levels sd (set_heap sd' h b) = levels sd b.
Proof. by destruct sd, sd'. Qed.

Lemma levels_set_orders sd os b : levels sd (set_orders os b) = levels sd b.
Proof. by destruct sd. Qed.

Lemma wf_empty : wf empty_book.
Proof.
  split.
  - intros id o H. cbn in H. by rewrite lookup_empty in H.
  - intros id o H. cbn in H. by rewrite lookup_empty in H.
  - intros [] p id H; unfold level, bucket in H; cbn in H;
      rewrite lookup_empty in H; by apply elem_of_nil in H.
  - intros [] p; unfold level, bucket; cbn; rewrite lookup_empty; constructor.
  - intros []; constructor.
  - intros id o H. cbn in H. by rewrite lookup_empty in H.
Qed.

(** An order rests in one queue only. *)
Lemma wf_level_unique b sd p id o :
  wf b → orders b !! id = Some o → id ∈ level sd p b →
  sd = side_of (side o) ∧ p = price o.
Proof.
  intros Hwf Ho Hin. destruct (wf_live _ Hwf _ _ _ Hin) as (o' & Ho' & <- & <-).
  by simplify_eq.
Qed.

(** [wf] sees the ledgers through [level] only: creating or dropping keys
    with empty lists does not matter. *)
Lemma wf_set_levels sd L b :
  wf b → (∀ p, bucket L p = level sd p b) → wf (set_levels sd L b).
Proof.
  intros Hwf HL.
  assert (Hlv : ∀ sd' p, level sd' p (set_levels sd L b) = level sd' p b).
  { intros sd' p. rewrite level_set_levels. case_decide; [subst; apply HL|done]. }
  split.
  - intros id o. rewrite orders_set_levels. apply Hwf.
  - intros id o. rewrite orders_set_levels, Hlv. apply Hwf.
  - intros sd' p id. rewrite orders_set_levels, Hlv. apply Hwf.
  - intros sd' p. rewrite Hlv. apply Hwf.
  - intros sd'. rewrite heap_set_levels. apply Hwf.
  - intros id o. rewrite orders_set_levels, heap_set_levels. apply Hwf.
Qed.

Lemma wf_set_heap sd h b :
  wf b → keys_sorted h →
  (∀ e, e ∈ heap sd b → is_Some (orders b !! e_id e) → e ∈ h) →
  wf (set_heap sd h b).
Proof.
  intros Hwf Hh Hkeep. split.
  - intros id o. rewrite orders_set_heap. apply Hwf.
  - intros id o. rewrite orders_set_heap, level_set_heap. apply Hwf.
  - intros sd' p id. rewrite orders_set_heap, level_set_heap. apply Hwf.
  - intros sd' p. rewrite level_set_heap. apply Hwf.
  - intros sd'. rewrite heap_set_heap. case_decide; [done|apply Hwf].
  - intros id o. rewrite orders_set_heap, heap_set_heap. intros Ho.
    case_decide as E; [|by apply (wf_cover _ Hwf id)]. apply Hkeep.
    + rewrite <- E. by apply (wf_cover _ Hwf id).
    + cbn. rewrite (wf_id _ Hwf _ _ Ho). by rewrite Ho.
Qed.

Lemma wf_set_orders os b :
  wf b →
  (∀ id, option_Forall2 same_place (orders b !! id) (os !! id)) →
  wf (set_orders os b).
Proof.
  intros Hwf Hos. split.
  - intros id o Ho. simpl in Ho. specialize (Hos id). rewrite Ho in Hos.
    inversion Hos as [o0 o1 (Hid & _ & _ & _) Hb|]; simplify_eq.
    rewrite Hid. eapply wf_id; eauto.
  - intros id o Ho. simpl in Ho. specialize (Hos id). rewrite Ho in Hos.
    inversion Hos as [o0 o1 (_ & Hs & Hp & _) Hb|]; simplify_eq.
    rewrite level_set_orders, Hs, Hp. eapply wf_rests; eauto.
  - intros sd p id. rewrite level_set_orders. intros Hin.
    destruct (wf_live _ Hwf _ _ _ Hin) as (o & Ho & Hs & Hp).
    specialize (Hos id). rewrite Ho in Hos.
    inversion Hos as [o0 o1 (_ & Hs' & Hp' & _) Hb Hb'|]; simplify_eq.
    exists o1. simpl. split; [done|]. by rewrite Hs', Hp'.
  - intros sd p. rewrite level_set_orders. apply Hwf.
  - intros sd. rewrite heap_set_orders. apply Hwf.
  - intros id o Ho. simpl in Ho. specialize (Hos id). rewrite Ho in Hos.
    inversion Hos as [o0 o1 (Hid & Hs & Hp & Ht) Hb|]; simplify_eq.
    rewrite heap_set_orders. unfold entry_of. rewrite Hid, Hs, Hp, Ht.
    apply (wf_cover _ Hwf id o0). congruence.
Qed.

(** ** The heap order *)

Lemma entry_lt_true a b : entry_lt a b = true → (e_key a <= e_key b)%Qc.
Proof.
  unfold entry_lt. destruct (e_key a ?= e_key b)%Qc eqn:E; intros H.
  - apply Qceq_alt in E. rewrite E. apply Qcle_refl.
  - apply Qclt_le_weak. by apply Qclt_alt.
  - done.
Qed.

Lemma entry_lt_false a b : entry_lt a b = false → (e_key b <= e_key a)%Qc.
Proof.
  unfold entry_lt. destruct (e_key a ?= e_key b)%Qc eqn:E; intros H.
  - apply Qceq_alt in E. rewrite E. apply Qcle_refl.
  - done.
  - apply Qclt_le_weak. by apply Qcgt_alt.
Qed.

Lemma elem_of_heappush h e x : x ∈ heappush h e ↔ x = e ∨ x ∈ h.
Proof.
  induction h as [|y h IH]; simpl.
  - rewrite list_elem_of_singleton. set_solver.
  - destruct (entry_lt e y); rewrite !elem_of_cons; [done|]. rewrite IH. tauto.
Qed.

Lemma heappush_sorted h e : keys_sorted h → keys_sorted (heappush h e).
Proof.
  unfold keys_sorted. induction h as [|x h IH]; simpl; intros Hs.
  - repeat constructor.
  - destruct (entry_lt e x) eqn:E.
    + simpl. constructor; [done|]. apply StronglySorted_inv in Hs as [_ Hx].
      constructor; [by apply entry_lt_true|].
      eapply Forall_impl; [exact Hx|]. intros k Hk.
      eapply Qcle_trans; [by apply entry_lt_true|done].
    + apply StronglySorted_inv in Hs as [Hs Hx]. simpl. constructor; [by apply IH|].
      apply Forall_fmap, Forall_forall. intros y Hy.
      apply elem_of_heappush in Hy as [->|Hy]; [by apply entry_lt_false|].
      rewrite Forall_fmap, Forall_forall in Hx. by apply Hx.
Qed.

Lemma discover_suffix live h : (discover live h).2 `suffix_of` h.
Proof.
  induction h as [|e h IH]; simpl; [done|].
  destruct (live !! e_id e); [done|]. by apply suffix_cons_r.
Qed.

Lemma keys_sorted_suffix h h' : h' `suffix_of` h → keys_sorted h → keys_sorted h'.
Proof.
  intros [k ->]. unfold keys_sorted. rewrite fmap_app.
  induction (e_key <$> k) as [|x l IH]; simpl; [done|].
  intros Hs. apply StronglySorted_inv in Hs as [Hs _]. by apply IH.
Qed.

(** ** Storing an order *)

Lemma orders_insert_order o b :
  orders (insert_order o b) = <[order_id o := o]> (orders b).
Proof. unfold insert_order. by rewrite orders_set_levels, orders_set_heap. Qed.

Lemma level_insert_order o b sd p :
  level sd p (insert_order o b) =
  if decide (sd = side_of (side o) ∧ p = price o)
  then level sd p b ++ [order_id o] else level sd p b.
Proof.
  unfold insert_order. rewrite level_set_levels.
  destruct (decide (sd = side_of (side o))) as [->|Hsd].
  - rewrite bucket_append_to_level, levels_set_heap, levels_set_orders.
    destruct (decide (p = price o)) as [->|Hp].
    + by rewrite decide_True.
    + by rewrite decide_False by tauto.
  - rewrite decide_False by tauto. by rewrite level_set_heap, level_set_orders.
Qed.

Lemma heap_insert_order o b sd :
  heap sd (insert_order o b) =
  if decide (sd = side_of (side o))
  then heappush (heap sd b)
         (mkEntry (heap_key sd (price o)) (timestamp o) (order_id o))
  else heap sd b.
Proof.
  unfold insert_order. rewrite heap_set_levels, heap_set_heap.
  case_decide; [subst|]; by rewrite heap_set_orders.
Qed.

Lemma wf_insert_order o b :
  wf b → orders b !! order_id o = None → wf (insert_order o b).
Proof.
  intros Hwf Hfresh.
  assert (Hnot : ∀ sd p, order_id o ∉ level sd p b).
  { intros sd p Hin. destruct (wf_live _ Hwf _ _ _ Hin) as (o' & Ho' & _).
    congruence. }
  split.
  - intros id o'. rewrite orders_insert_order, lookup_insert.
    case_decide; [naive_solver|apply Hwf].
  - intros id o'. rewrite orders_insert_order, lookup_insert, level_insert_order.
    case_decide as Hid.
    + intros [= <-]. rewrite decide_True by done. set_solver.
    + intros Ho'. pose proof (wf_rests _ Hwf _ _ Ho'). case_decide; set_solver.
  - intros sd p id. rewrite orders_insert_order, level_insert_order, lookup_insert.
    case_decide as Hsp.
    + rewrite elem_of_app, list_elem_of_singleton. intros [Hin| ->].
      * rewrite decide_False by (intros <-; by eapply Hnot). by apply Hwf.
      * rewrite decide_True by done. naive_solver.
    + intros Hin. rewrite decide_False by (intros <-; by eapply Hnot).
      by apply Hwf.
  - intros sd p. rewrite level_insert_order. case_decide; [|apply Hwf].
    apply NoDup_app. split; [apply Hwf|]. split; [|apply NoDup_singleton].
    intros x Hx ->%list_elem_of_singleton. by eapply Hnot.
  - intros sd. rewrite heap_insert_order. case_decide; [|apply Hwf].
    apply heappush_sorted, Hwf.
  - intros id o'. rewrite orders_insert_order, lookup_insert, heap_insert_order.
    case_decide as Hid.
    + intros [= <-]. rewrite decide_True by done.
      apply elem_of_heappush. by left.
    + intros Ho'. pose proof (wf_cover _ Hwf _ _ Ho').
      case_decide; [|done]. apply elem_of_heappush. by right.
Qed.

Lemma add_order_fresh now id sd p q b :
  orders b !! id = None →
  add_order now id sd p q b = (true, insert_order (mkOrder id sd p q now) b).
Proof. intros H. unfold add_order. by rewrite H. Qed.

Lemma add_order_taken now id sd p q b :
  is_Some (orders b !! id) → add_order now id sd p q b = (false, b).
Proof. intros [o H]. unfold add_order. by rewrite H. Qed.

Lemma wf_add_order now id sd p q b : wf b → wf (add_order now id sd p q b).2.
Proof.
  intros Hwf. destruct (orders b !! id) eqn:E.
  - by rewrite add_order_taken.
  - rewrite add_order_fresh by done. by apply wf_insert_order.
Qed.

(** ** Cancellation *)

Lemma cancel_order_unknown id b :
  orders b !! id = None → cancel_order id b = Some (false, b).
Proof. intros H. unfold cancel_order. by rewrite H. Qed.

(** On a well-formed book [cancel_order] cannot raise; it drops the id from
    the id-map and from its queue, keeps the order of the others, and leaves
    both heaps alone. *)
Lemma cancel_order_resting id o b :
  wf b → orders b !! id = Some o →
  ∃ b', cancel_order id b = Some (true, b') ∧
    orders b' = delete id (orders b) ∧
    (∀ sd p, level sd p b' = filter (λ y, y ≠ id) (level sd p b)) ∧
    (∀ sd, heap sd b' = heap sd b).
Proof.
  intros Hwf Ho. unfold cancel_order. rewrite Ho.
  destruct (remove_from_level_bucket (levels (side_of (side o)) b) (price o) id)
    as (L & -> & HL).
  { apply Hwf. } { by apply Hwf. }
  eexists; split; [done|]. split; [done|]. split.
  - intros sd p. rewrite level_set_orders, level_set_levels.
    destruct (decide (sd = side_of (side o))) as [->|Hsd].
    + rewrite HL. case_decide as Hp; [by subst|].
      rewrite filter_ne_id; [done|]. intros Hin.
      destruct (wf_level_unique _ _ _ _ _ Hwf Ho Hin). done.
    + rewrite filter_ne_id; [done|]. intros Hin.
      destruct (wf_level_unique _ _ _ _ _ Hwf Ho Hin). done.
  - intros sd. by rewrite heap_set_orders, heap_set_levels.
Qed.

(** A book described by its id-map, its queues and its heaps. *)
Lemma wf_restrict b b' (keep : string → Prop) `{!∀ x, Decision (keep x)} :
  wf b →
  (∀ id, orders b' !! id = if decide (keep id) then orders b !! id else None) →
  (∀ sd p, level sd p b' = filter keep (level sd p b)) →
  (∀ sd, heap sd b' = heap sd b) →
  wf b'.
Proof.
  intros Hwf Hos Hlv Hh. split.
  - intros id o. rewrite Hos. case_decide; [apply Hwf|done].
  - intros id o. rewrite Hos, Hlv. case_decide; [|done]. intros Ho.
    apply list_elem_of_filter. split; [done|by apply Hwf].
  - intros sd p id. rewrite Hlv, Hos. intros [Hk Hin]%list_elem_of_filter.
    rewrite decide_True by done. by apply Hwf.
  - intros sd p. rewrite Hlv. apply NoDup_filter, Hwf.
  - intros sd. rewrite Hh. apply Hwf.
  - intros id o. rewrite Hos, Hh. case_decide; [apply Hwf|done].
Qed.

Lemma wf_cancel_order id b r b' :
  wf b → cancel_order id b = Some (r, b') → wf b'.
Proof.
  intros Hwf Hc. destruct (orders b !! id) as [o|] eqn:Ho.
  - destruct (cancel_order_resting _ _ _ Hwf Ho) as (b2 & Hc2 & Hos & Hlv & Hh).
    rewrite Hc2 in Hc. simplify_eq.
    apply (wf_restrict b b' (λ y, y ≠ id)); try done.
    intros id'. rewrite Hos. case_decide.
    + by rewrite lookup_delete_ne.
    + destruct (decide (id = id')) as [->|]; [apply lookup_delete_eq|].
      exfalso. naive_solver.
  - rewrite cancel_order_unknown in Hc by done. by simplify_eq.
Qed.

(** ** Amendment *)

Lemma modify_order_unknown id np nq b :
  orders b !! id = None → modify_order id np nq b = Some (false, b).
Proof. intros H. unfold modify_order. by rewrite H. Qed.

Lemma modify_order_quantity id o nq b :
  orders b !! id = Some o →
  modify_order id None nq b = Some (true, amend_quantity nq id b).
Proof. intros H. unfold modify_order. rewrite H. by destruct nq. Qed.

(** A price amendment is a cancellation followed by storing the re-priced
    order, which keeps its timestamp. *)
Lemma modify_order_price id o np nq b :
  wf b → orders b !! id = Some o →
  ∃ bc, cancel_order id b = Some (true, bc) ∧
    modify_order id (Some np) nq b =
    Some (true, amend_quantity nq id (insert_order (set_price np o) bc)).
Proof.
  intros Hwf Ho. pose proof (wf_id _ Hwf _ _ Ho) as Hid.
  unfold modify_order, cancel_order. rewrite Ho.
  destruct (remove_from_level_bucket (levels (side_of (side o)) b) (price o) id)
    as (L & -> & _).
  { apply Hwf. } { by apply Hwf. }
  eexists; split; [done|]. do 3 f_equal.
  unfold insert_order. cbn [set_price side price order_id timestamp].
  rewrite Hid. destruct (side_of (side o)); destruct b; cbn;
    by rewrite insert_delete_eq.
Qed.

Lemma same_place_alter (f : Order → Order) id (os : gmap string Order) :
  (∀ o, same_place o (f o)) →
  ∀ id', option_Forall2 same_place (os !! id') (alter f id os !! id').
Proof.
  intros Hf id'. rewrite lookup_alter. case_decide as E.
  - subst. destruct (os !! id'); constructor. apply Hf.
  - destruct (os !! id'); constructor. done.
Qed.

Lemma wf_alter f id b :
  (∀ o, same_place o (f o)) → wf b → wf (set_orders (alter f id (orders b)) b).
Proof. intros Hf Hwf. apply wf_set_orders; [done|]. by apply same_place_alter. Qed.

Lemma wf_amend_quantity nq id b : wf b → wf (amend_quantity nq id b).
Proof. destruct nq; [|done]. by apply wf_alter. Qed.

Lemma wf_modify_order id np nq b r b' :
  wf b → modify_order id np nq b = Some (r, b') → wf b'.
Proof.
  intros Hwf Hm. destruct (orders b !! id) as [o|] eqn:Ho.
  - destruct np as [np|].
    + destruct (modify_order_price id o np nq b Hwf Ho) as (bc & Hc & Hm').
      rewrite Hm' in Hm. simplify_eq. apply wf_amend_quantity, wf_insert_order.
      * by eapply wf_cancel_order.
      * destruct (cancel_order_resting _ _ _ Hwf Ho) as (b2 & Hc2 & Hos & _).
        rewrite Hc2 in Hc. simplify_eq. cbn. rewrite Hos.
        rewrite (wf_id _ Hwf _ _ Ho). apply lookup_delete_eq.
    + rewrite (modify_order_quantity _ _ _ _ Ho) in Hm. simplify_eq.
      by apply wf_amend_quantity.
  - rewrite modify_order_unknown in Hm by done. by simplify_eq.
Qed.

(** ** Best-price discovery *)

Lemma discover_Some live h k h' :
  discover live h = (Some k, h') →
  ∃ e rest, h' = e :: rest ∧ e_key e = k ∧ is_Some (live !! e_id e) ∧
            e ∈ h.
Proof.
  induction h as [|e h IH]; simpl; [done|].
  destruct (live !! e_id e) eqn:E.
  - intros [= <- <-]. exists e, h. rewrite E. set_solver.
  - intros H. destruct (IH H) as (e' & rest & -> & <- & Hl & Hin).
    exists e', rest. set_solver.
Qed.

Lemma discover_None live h h' :
  discover live h = (None, h') →
  h' = [] ∧ ∀ e, e ∈ h → live !! e_id e = None.
Proof.
  induction h as [|e h IH]; simpl.
  - intros [= <-]. split; [done|]. intros e H. by apply elem_of_nil in H.
  - destruct (live !! e_id e) eqn:E; [done|]. intros H.
    destruct (IH H) as [-> Hall]. split; [done|].
    intros e' [->|Hin]%elem_of_cons; auto.
Qed.

(** Discovery drops only entries whose id is not in the id-map. *)
Lemma discover_keeps_live live h e :
  e ∈ h → is_Some (live !! e_id e) → e ∈ (discover live h).2.
Proof.
  induction h as [|x h IH]; simpl; [done|]. intros Hin Hlive.
  destruct (live !! e_id x) eqn:E; [done|].
  apply elem_of_cons in Hin as [->|Hin]; [|by apply IH].
  rewrite E in Hlive. by destruct Hlive.
Qed.

(** Discovery is idempotent: a second call finds the same entry on top. *)
Lemma discover_idem live h :
  discover live (discover live h).2 = discover live h.
Proof.
  induction h as [|e h IH]; simpl; [done|].
  destruct (live !! e_id e) eqn:E; [|done]. simpl. by rewrite E.
Qed.

Lemma get_best_eq sd b :
  get_best sd b =
  (price_of_key sd <$> (discover (orders b) (heap sd b)).1,
   set_heap sd (discover (orders b) (heap sd b)).2 b).
Proof.
  destruct sd; unfold get_best, get_best_bid, get_best_ask; cbn [heap];
    by destruct (discover _ _) as [[k|] h].
Qed.

Lemma wf_get_best sd b : wf b → wf (get_best sd b).2.
Proof.
  intros Hwf. rewrite get_best_eq. cbn. apply wf_set_heap; [done| |].
  - eapply keys_sorted_suffix; [apply discover_suffix|apply Hwf].
  - intros e. apply discover_keeps_live.
Qed.

Lemma orders_get_best sd b : orders (get_best sd b).2 = orders b.
Proof. rewrite get_best_eq. apply orders_set_heap. Qed.

Lemma levels_get_best sd sd' b : levels sd' (get_best sd b).2 = levels sd' b.
Proof. rewrite get_best_eq. apply levels_set_heap. Qed.

Lemma heap_get_best_ne sd sd' b : sd' ≠ sd → heap sd' (get_best sd b).2 = heap sd' b.
Proof. intros H. rewrite get_best_eq. cbn. rewrite heap_set_heap. by case_decide. Qed.

Lemma heap_get_best sd b :
  heap sd (get_best sd b).2 = (discover (orders b) (heap sd b)).2.
Proof. rewrite get_best_eq. cbn. rewrite heap_set_heap. by case_decide. Qed.

(** Asking again gives the same answer and changes nothing any more. *)
Lemma get_best_idem sd b : get_best sd (get_best sd b).2 = get_best sd b.
Proof.
  rewrite (get_best_eq sd (get_best sd b).2), orders_get_best, heap_get_best.
  rewrite discover_idem, (get_best_eq sd b). cbn. f_equal.
  destruct sd; by destruct b.
Qed.

Lemma get_best_other sd sd' b :
  sd' ≠ sd → (get_best sd' (get_best sd b).2).1 = (get_best sd' b).1.
Proof.
  intros H. rewrite !(get_best_eq sd'). cbn.
  by rewrite orders_get_best, heap_get_best_ne.
Qed.

Lemma get_spread_eq b :
  get_spread b =
  (match (get_best_bid b).1, (get_best_ask b).1 with
   | Some bb, Some ba => Some (ba - bb)%Qc
   | _, _ => None
   end,
   (get_best_ask (get_best_bid b).2).2).
Proof.
  unfold get_spread. pose proof (get_best_other Buy Sell b) as H. cbn in H.
  destruct (get_best_bid b) as [bb b1]. cbn in *.
  destruct (get_best_ask b1) as [ba b2]. cbn in *. by rewrite <- H.
Qed.

Lemma wf_get_spread b : wf b → wf (get_spread b).2.
Proof.
  intros Hwf. rewrite get_spread_eq. cbn.
  apply (wf_get_best Sell), (wf_get_best Buy), Hwf.
Qed.

(** ** One pass of the matching loop *)

Lemma filter_all (P : string → Prop) `{!∀ x, Decision (P x)} (l : list string) :
  (∀ x, x ∈ l → P x) → filter P l = l.
Proof.
  induction l as [|y l IH]; intros Hall; [done|].
  rewrite filter_cons_True by (apply Hall; set_solver).
  rewrite IH; [done|]. intros x Hx. apply Hall. set_solver.
Qed.

Lemma retire_if_filled_spec o b :
  wf b → orders b !! order_id o = Some o →
  ∃ b', retire_if_filled o b = Some b' ∧
    (∀ id, orders b' !! id =
           if decide (id = order_id o ∧ quantity o = 0) then None
           else orders b !! id) ∧
    (∀ sd p, level sd p b' =
             filter (λ id, ¬ (id = order_id o ∧ quantity o = 0)) (level sd p b)) ∧
    (∀ sd, heap sd b' = heap sd b).
Proof.
  intros Hwf Ho. unfold retire_if_filled.
  destruct (Z.eqb_spec (quantity o) 0) as [Hq|Hq].
  - destruct (cancel_order_resting _ _ _ Hwf Ho) as (b' & -> & Hos & Hlv & Hh).
    exists b'. split; [done|]. split; [|split; [|done]].
    + intros id. rewrite Hos. case_decide as E.
      * destruct E as [-> _]. apply lookup_delete_eq.
      * apply lookup_delete_ne. naive_solver.
    + intros sd p. rewrite Hlv. apply list_filter_iff. naive_solver.
  - exists b. split; [done|]. split; [|split; [|done]].
    + intros id. by rewrite decide_False by tauto.
    + intros sd p. symmetry. apply filter_all. tauto.
Qed.

Lemma cross_spec bb ba b :
  wf b →
  ∃ r, cross bb ba b = Some r ∧
    match r with
    | Break b' =>
      orders b' = orders b ∧ (∀ sd p, level sd p b' = level sd p b) ∧
      (∀ sd, heap sd b' = heap sd b) ∧
      (level Buy bb b = [] ∨ level Sell ba b = [])
    | Continue t b' =>
      ∃ bo so,
        head (level Buy bb b) = Some (order_id bo) ∧
        head (level Sell ba b) = Some (order_id so) ∧
        orders b !! order_id bo = Some bo ∧
        orders b !! order_id so = Some so ∧
        t = mkTrade (order_id bo) (order_id so) (price so)
              (Z.min (quantity bo) (quantity so)) ∧
        traded b bo so b'
    end.
Proof.
  intros Hwf. unfold cross.
  pose proof (dd_get_fst (price_levels_buy b) bb) as Hbuys.
  pose proof (bucket_dd_get (price_levels_buy b) bb) as HLb.
  destruct (dd_get (price_levels_buy b) bb) as [buys Lb]. cbn in Hbuys, HLb.
  set (b1 := set_levels Buy Lb b).
  assert (Hwf1 : wf b1) by (by apply wf_set_levels).
  pose proof (dd_get_fst (price_levels_sell b1) ba) as Hsells.
  pose proof (bucket_dd_get (price_levels_sell b1) ba) as HLs.
  destruct (dd_get (price_levels_sell b1) ba) as [sells Ls]. cbn in Hsells, HLs.
  set (b2 := set_levels Sell Ls b1).
  assert (Hwf2 : wf b2) by (by apply wf_set_levels).
  assert (Hlv2 : ∀ sd p, level sd p b2 = level sd p b).
  { intros [] p; unfold level; cbn; [apply HLb|apply HLs]. }
  assert (Hh2 : ∀ sd, heap sd b2 = heap sd b) by (by intros []).
  assert (Hbuys' : buys = level Buy bb b) by exact Hbuys.
  assert (Hsells' : sells = level Sell ba b) by exact Hsells.
  clear Hbuys Hsells. rename Hbuys' into Hbuys. rename Hsells' into Hsells.
  destruct buys as [|bid buys].
  { eexists; split; [done|]. do 3 (split; [done|]). left. symmetry. exact Hbuys. }
  destruct sells as [|sid sells].
  { eexists; split; [done|]. do 3 (split; [done|]). right. symmetry. exact Hsells. }
  destruct (wf_live _ Hwf Buy bb bid) as (bo & Hbo & Hbs & Hbp).
  { rewrite <- Hbuys. set_solver. }
  destruct (wf_live _ Hwf Sell ba sid) as (so & Hso & Hss & Hsp).
  { rewrite <- Hsells. set_solver. }
  pose proof (wf_id _ Hwf _ _ Hbo) as Hbid.
  pose proof (wf_id _ Hwf _ _ Hso) as Hsid.
  subst bid sid.
  assert (Hne : order_id bo ≠ order_id so).
  { intros E. rewrite E in Hbo. simplify_eq. congruence. }
  change (orders b2) with (orders b). rewrite Hbo, Hso.
  set (mq := Z.min (quantity bo) (quantity so)).
  set (os1 := alter (sub_quantity mq) (order_id bo) (orders b)).
  set (os2 := alter (sub_quantity mq) (order_id so) os1).
  assert (H2b : os2 !! order_id bo = Some (sub_quantity mq bo)).
  { unfold os2, os1. rewrite lookup_alter_ne by done.
    by rewrite lookup_alter_eq, Hbo. }
  assert (H2s : os2 !! order_id so = Some (sub_quantity mq so)).
  { unfold os2, os1. rewrite lookup_alter_eq, lookup_alter_ne by done.
    by rewrite Hso. }
  rewrite H2b, H2s.
  set (b3 := set_orders os2 b2).
  assert (Hwf3 : wf b3).
  { change b3 with
      (set_orders (alter (sub_quantity mq) (order_id so) (orders (set_orders os1 b2)))
         (set_orders os1 b2)).
    apply wf_alter; [done|].
    by apply (wf_alter (sub_quantity mq) (order_id bo) b2). }
  destruct (retire_if_filled_spec (sub_quantity mq bo) b3 Hwf3)
    as (b4 & -> & Hos4 & Hlv4 & Hh4); [done|].
  assert (Hwf4 : wf b4).
  { eapply (wf_restrict b3 b4); [done| |exact Hlv4|done].
    intros id. rewrite Hos4. repeat case_decide; tauto || done. }
  destruct (retire_if_filled_spec (sub_quantity mq so) b4 Hwf4)
    as (b5 & -> & Hos5 & Hlv5 & Hh5).
  { rewrite Hos4. rewrite decide_False; [done|]. cbn. naive_solver. }
  cbn [sub_quantity set_quantity order_id quantity] in Hos4, Hlv4, Hos5, Hlv5.
  eexists; split; [done|]. exists bo, so.
  split; [by rewrite <- Hbuys|]. split; [by rewrite <- Hsells|].
  do 3 (split; [done|]). fold mq. split.
  - intros id. rewrite Hos5, Hos4. fold os1. fold os2. change (orders b3) with os2.
    unfold unfilled.
    repeat case_decide; try done; exfalso; naive_solver lia.
  - intros sd p. rewrite Hlv5, Hlv4. unfold b3.
    rewrite level_set_orders, Hlv2, list_filter_filter. apply list_filter_iff. intros id.
    unfold unfilled. naive_solver lia.
  - intros sd. rewrite Hh5, Hh4. unfold b3. by rewrite heap_set_orders, Hh2.
Qed.

Lemma wf_ext b b' :
  wf b → orders b' = orders b → (∀ sd p, level sd p b' = level sd p b) →
  (∀ sd, heap sd b' = heap sd b) → wf b'.
Proof.
  intros Hwf Hos Hlv Hh. split.
  - intros id o. rewrite Hos. apply Hwf.
  - intros id o. rewrite Hos, Hlv. apply Hwf.
  - intros sd p id. rewrite Hos, Hlv. apply Hwf.
  - intros sd p. rewrite Hlv. apply Hwf.
  - intros sd. rewrite Hh. apply Hwf.
  - intros id o. rewrite Hos, Hh. apply Hwf.
Qed.

Lemma settled_eq b : settled b = (get_best Sell (get_best Buy b).2).2.
Proof. done. Qed.

Lemma orders_settled b : orders (settled b) = orders b.
Proof. by rewrite settled_eq, !orders_get_best. Qed.

Lemma level_settled sd p b : level sd p (settled b) = level sd p b.
Proof. unfold level. by rewrite settled_eq, !levels_get_best. Qed.

Lemma heap_settled sd b :
  heap sd (settled b) = (discover (orders b) (heap sd b)).2.
Proof.
  rewrite settled_eq. destruct sd.
  - by rewrite heap_get_best_ne, heap_get_best.
  - by rewrite heap_get_best, orders_get_best, heap_get_best_ne.
Qed.

Lemma wf_settled b : wf b → wf (settled b).
Proof. intros H. rewrite settled_eq. by do 2 apply wf_get_best. Qed.

Lemma set_heap_id sd b : set_heap sd (heap sd b) b = b.
Proof. by destruct sd, b. Qed.

(** Once the stale tops are gone, discovery is a pure read. *)
Lemma get_best_stable sd b b0 :
  orders b = orders b0 →
  heap sd b = (discover (orders b0) (heap sd b0)).2 →
  get_best sd b = ((get_best sd b0).1, b).
Proof.
  intros Hos Hh. rewrite !get_best_eq. cbn.
  rewrite Hos, Hh, discover_idem. f_equal. rewrite <- Hh. apply set_heap_id.
Qed.

Lemma Qc_ltb_lt a b : Qc_ltb a b = true ↔ (a < b)%Qc.
Proof.
  unfold Qc_ltb. rewrite Qclt_alt. destruct (a ?= b)%Qc; naive_solver.
Qed.

Lemma match_iter_spec b :
  wf b →
  ∃ r, match_iter b = Some r ∧
    match r with
    | Break b' =>
      orders b' = orders b ∧ (∀ sd p, level sd p b' = level sd p b) ∧
      (∀ sd, heap sd b' = heap sd (settled b)) ∧ quiet b
    | Continue t b' =>
      ∃ bb ba bo so,
        (get_best_bid b).1 = Some bb ∧ (get_best_ask b).1 = Some ba ∧
        ¬ (bb < ba)%Qc ∧
        head (level Buy bb b) = Some (order_id bo) ∧
        head (level Sell ba b) = Some (order_id so) ∧
        orders b !! order_id bo = Some bo ∧
        orders b !! order_id so = Some so ∧
        t = mkTrade (order_id bo) (order_id so) (price so)
              (Z.min (quantity bo) (quantity so)) ∧
        traded (settled b) bo so b'
    end.
Proof.
  intros Hwf. unfold match_iter, quiet.
  pose proof (get_best_other Buy Sell b ltac:(done)) as Hask.
  cbn [get_best] in Hask.
  pose proof (eq_refl (settled b)) as Hset. unfold settled at 1 in Hset.
  destruct (get_best_bid b) as [obb b1]. cbn [fst snd] in *.
  destruct (get_best_ask b1) as [oba b2]. cbn [fst snd] in *.
  rewrite <- Hask. subst b2.
  assert (Hbrk : orders (settled b) = orders b ∧
                 (∀ sd p, level sd p (settled b) = level sd p b) ∧
                 (∀ sd, heap sd (settled b) = heap sd (settled b))).
  { rewrite orders_settled. split; [done|]. split; [|done].
    intros. apply level_settled. }
  destruct obb as [bb|];
    [|eexists; split; [done|]; cbv beta iota; tauto].
  destruct oba as [ba|];
    [|eexists; split; [done|]; cbv beta iota; tauto].
  destruct (Qc_ltb bb ba) eqn:Hlt.
  { eexists; split; [done|]. cbv beta iota. destruct Hbrk as (? & ? & ?).
    do 3 (split; [done|]). left. by apply Qc_ltb_lt. }
  destruct (cross_spec bb ba (settled b) (wf_settled _ Hwf)) as (r & -> & Hspec).
  exists r. split; [done|]. destruct r as [b'|t b'].
  - destruct Hspec as (Hos & Hlv & Hh & Hempty).
    rewrite orders_settled in Hos. split; [done|]. split.
    { intros. by rewrite Hlv, level_settled. }
    split; [done|]. right. by rewrite !level_settled in Hempty.
  - destruct Hspec as (bo & so & Hb & Hs & Hbo & Hso & -> & Htr).
    rewrite level_settled in Hb, Hs. rewrite orders_settled in Hbo, Hso.
    exists bb, ba, bo, so. do 2 (split; [done|]). split; [|done].
    rewrite <- Qc_ltb_lt. by rewrite Hlt.
Qed.

Lemma wf_traded b bo so b' : wf b → traded b bo so b' → wf b'.
Proof.
  intros Hwf [Hos Hlv Hh].
  set (mq := Z.min (quantity bo) (quantity so)) in *.
  set (os1 := alter (sub_quantity mq) (order_id bo) (orders b)) in *.
  set (os2 := alter (sub_quantity mq) (order_id so) os1) in *.
  assert (Hwf3 : wf (set_orders os2 b)).
  { change (set_orders os2 b) with
      (set_orders (alter (sub_quantity mq) (order_id so) (orders (set_orders os1 b)))
         (set_orders os1 b)).
    apply wf_alter; [done|]. by apply wf_alter. }
  eapply (wf_restrict _ b' _ Hwf3); [exact Hos| |].
  - intros sd p. by rewrite level_set_orders.
  - intros sd. by rewrite heap_set_orders.
Qed.

Lemma wf_match_iter b r :
  wf b → match_iter b = Some r →
  match r with Break b' => wf b' | Continue _ b' => wf b' end.
Proof.
  intros Hwf Hr. destruct (match_iter_spec b Hwf) as (r' & Hr' & Hspec).
  rewrite Hr in Hr'. simplify_eq. destruct r' as [b'|t b'].
  - destruct Hspec as (Hos & Hlv & Hh & _).
    apply (wf_ext (settled b)); [by apply wf_settled| | |done].
    + by rewrite orders_settled.
    + intros. by rewrite level_settled.
  - destruct Hspec as (bb & ba & bo & so & _ & _ & _ & _ & _ & _ & _ & _ & Htr).
    eapply wf_traded; [|exact Htr]. by apply wf_settled.
Qed.

(** The smaller of the two crossed orders is filled, so every trade takes
    an id out of the id-map. *)
Lemma traded_size b bo so b' :
  orders b !! order_id bo = Some bo → orders b !! order_id so = Some so →
  traded b bo so b' → (size (orders b') < size (orders b))%nat.
Proof.
  intros Hbo Hso [Hos _ _]. rewrite <- !size_dom. apply subset_size.
  set (mq := Z.min (quantity bo) (quantity so)) in *.
  assert (Hsub : ∀ id, is_Some (orders b' !! id) → is_Some (orders b !! id)).
  { intros id. rewrite Hos. case_decide; [|by intros []].
    rewrite !lookup_alter. repeat case_decide; subst; rewrite ?fmap_is_Some; done. }
  assert (Hgone : ∃ id, is_Some (orders b !! id) ∧ orders b' !! id = None).
  { destruct (Z.min_spec (quantity bo) (quantity so)) as [[_ Hm]|[_ Hm]].
    - exists (order_id bo). split; [by eexists|]. rewrite Hos.
      rewrite decide_False; [done|]. unfold unfilled. fold mq. naive_solver.
    - exists (order_id so). split; [by eexists|]. rewrite Hos.
      rewrite decide_False; [done|]. unfold unfilled. fold mq. naive_solver. }
  destruct Hgone as (id & Hin & Hout). split.
  - intros x. rewrite !elem_of_dom. apply Hsub.
  - intros Hsup. specialize (Hsup id). rewrite !elem_of_dom, Hout in Hsup.
    destruct (Hsup Hin) as [? ?]. done.
Qed.

Lemma match_loop_pass fuel ms b r b' :
  match_loop fuel ms b = Some (r, b') → ∃ ts, r = ms ++ ts ∧ pass b ts b'.
Proof.
  revert ms b. induction fuel as [|fuel IH]; intros ms b; simpl; [done|].
  destruct (match_iter b) as [[b1|t b1]|] eqn:E; [| |done].
  - intros [= <- <-]. exists []. split; [by rewrite app_nil_r|by constructor].
  - intros H. destruct (IH _ _ H) as (ts & -> & Hp). exists (t :: ts).
    split; [by rewrite <- app_assoc|]. by econstructor.
Qed.

Lemma match_loop_returns fuel ms b :
  wf b → (size (orders b) < fuel)%nat → is_Some (match_loop fuel ms b).
Proof.
  revert ms b. induction fuel as [|fuel IH]; intros ms b Hwf Hsz; [lia|].
  simpl. destruct (match_iter_spec b Hwf) as (r & Hr & Hspec). rewrite Hr.
  pose proof (wf_match_iter b r Hwf Hr) as Hwf'.
  destruct r as [b'|t b']; [done|]. apply IH; [done|].
  destruct Hspec as (bb & ba & bo & so & _ & _ & _ & _ & _ & Hbo & Hso & _ & Htr).
  rewrite <- orders_settled in Hbo, Hso.
  pose proof (traded_size _ _ _ _ Hbo Hso Htr) as Hlt.
  rewrite orders_settled in Hlt. lia.
Qed.

(** [match_orders] returns on every well-formed book. *)
Lemma match_orders_returns b :
  wf b → ∃ ts b', match_orders b = Some (ts, b') ∧ pass b ts b'.
Proof.
  intros Hwf. unfold match_orders.
  destruct (match_loop_returns (S (size (orders b))) [] b Hwf) as [[ts b'] H]; [lia|].
  exists ts, b'. split; [done|].
  destruct (match_loop_pass _ _ _ _ _ H) as (ts' & -> & Hp). done.
Qed.

Lemma match_orders_pass b ts b' :
  match_orders b = Some (ts, b') → pass b ts b'.
Proof.
  intros H. destruct (match_loop_pass _ _ _ _ _ H) as (ts' & -> & Hp). done.
Qed.

Lemma wf_pass b ts b' : wf b → pass b ts b' → wf b'.
Proof.
  intros Hwf Hp. induction Hp as [b b' Hi|b t b1 ts b' Hi Hp IH].
  - apply (wf_match_iter _ _ Hwf Hi).
  - apply IH. apply (wf_match_iter _ _ Hwf Hi).
Qed.

(** ** Snapshot *)

Lemma heap_key_price_of_key sd k : heap_key sd (price_of_key sd k) = k.
Proof. destruct sd; [apply Qcopp_involutive|done]. Qed.

Lemma price_of_key_heap_key sd p : price_of_key sd (heap_key sd p) = p.
Proof. destruct sd; [apply Qcopp_involutive|done]. Qed.

Lemma Qcopp_lt (k1 k2 : Qc) : (k1 < k2)%Qc → (- k2 < - k1)%Qc.
Proof.
  intros Hlt.
  destruct (Qcle_lt_or_eq _ _ (Qcopp_le_compat _ _ (Qclt_le_weak _ _ Hlt)))
    as [H|H]; [done|].
  exfalso. apply (Qclt_not_eq _ _ Hlt).
  by rewrite <- (Qcopp_involutive k1), <- (Qcopp_involutive k2), H.
Qed.

Lemma better_of_keys sd k1 k2 :
  (k1 <= k2)%Qc → price_of_key sd k1 ≠ price_of_key sd k2 →
  better sd (price_of_key sd k1) (price_of_key sd k2).
Proof.
  intros Hle Hne. assert (Hlt : (k1 < k2)%Qc).
  { destruct (Qcle_lt_or_eq _ _ Hle) as [Hlt | Heq]; [done|]. by subst. }
  destruct sd; cbn; [|done]. by apply Qcopp_lt.
Qed.

Lemma sum_quantity_is_Some (os : gmap string Order) (ids : list string) :
  (∀ id, id ∈ ids → is_Some (os !! id)) → is_Some (sum_quantity os ids).
Proof.
  induction ids as [|id ids IH]; intros H; simpl; [done|].
  destruct (H id) as [o ->]; [set_solver|].
  destruct IH as [t ->]; [|done]. intros x Hx. apply H. set_solver.
Qed.

Lemma snapshot_side_spec sd depth temp :
  ∀ seen acc b, wf b → keys_sorted temp →
  ∃ new b',
    snapshot_side sd depth temp seen acc b = Some (acc ++ new, b') ∧
    orders b' = orders b ∧
    (∀ sd' p, level sd' p b' = level sd' p b) ∧
    (∀ sd', heap sd' b' = heap sd' b) ∧
    (Z.of_nat (length (acc ++ new)) <= Z.max (Z.of_nat (length acc)) depth) ∧
    Forall (level_ok sd temp seen b) new ∧
    StronglySorted (better sd) (fst <$> new) ∧
    (∀ e, e ∈ temp → is_Some (orders b !! e_id e) →
          accounted sd depth seen (acc ++ new) new e).
Proof.
  induction temp as [|e temp IH]; intros seen acc b Hwf Hsorted; simpl.
  { exists [], b. rewrite app_nil_r. do 4 (split; [done|]).
    split; [lia|]. split; [constructor|]. split; [constructor|].
    intros e He. by apply elem_of_nil in He. }
  unfold keys_sorted in Hsorted. rewrite fmap_cons in Hsorted.
  apply StronglySorted_inv in Hsorted as [Hsorted Hhd].
  fold (keys_sorted temp) in Hsorted.
  rewrite Forall_fmap, Forall_forall in Hhd.
  destruct (Z.ltb_spec (Z.of_nat (length acc)) depth) as [Hlen|Hlen].
  2:{ exists [], b. rewrite app_nil_r. do 4 (split; [done|]).
      split; [lia|]. split; [constructor|]. split; [constructor|].
      intros e' _ _. right. right. split; [done|constructor]. }
  set (p := price_of_key sd (e_key e)).
  destruct (decide ((p ∉ seen) ∧ is_Some (orders b !! e_id e))) as [[Hp He]|Hskip].
  - rewrite bool_decide_eq_true_2, bool_decide_eq_true_2 by done. cbn [andb].
    pose proof (dd_get_fst (levels sd b) p) as Hids.
    pose proof (bucket_dd_get (levels sd b) p) as HL.
    destruct (dd_get (levels sd b) p) as [ids L]. cbn [fst snd] in Hids, HL.
    destruct (sum_quantity_is_Some (orders b) ids) as [total Htotal].
    { intros id Hid. rewrite Hids in Hid.
      destruct (wf_live _ Hwf _ _ _ Hid) as (o & -> & _). done. }
    rewrite Htotal.
    set (b1 := set_levels sd L b).
    assert (Hlv1 : ∀ sd' p', level sd' p' b1 = level sd' p' b).
    { intros sd' p'. unfold b1. rewrite level_set_levels.
      case_decide; [subst; apply HL|done]. }
    assert (Hos1 : orders b1 = orders b) by apply orders_set_levels.
    destruct (IH ({[p]} ∪ seen) (acc ++ [(p, total)]) b1)
      as (new & b' & -> & Hos & Hlv & Hh & Hn & Hok & Hss & Hacc).
    { by apply wf_set_levels. } { done. }
    exists ((p, total) :: new), b'. rewrite <- app_assoc. split; [done|].
    split; [congruence|]. split; [intros; by rewrite Hlv|].
    split; [intros; rewrite Hh; apply heap_set_levels|].
    split; [|split; [|split]].
    + rewrite <- app_assoc in Hn. cbn [app] in Hn.
      rewrite !length_app in *. cbn [length] in *. lia.
    + constructor.
      * split; [done|]. split; [exists e; set_solver|]. cbn. by rewrite Hids in Htotal.
      * eapply Forall_impl; [exact Hok|]. intros [p' t'] (Hs & (e' & ? & ? & ?) & Hsum).
        cbn in *. rewrite Hos1, Hlv1 in Hsum. rewrite Hos1 in *.
        split; [set_solver|]. split; [exists e'; set_solver|done].
    + cbn. constructor; [done|]. apply Forall_fmap, Forall_forall.
      intros [p' t'] Hin. rewrite Forall_forall in Hok.
      destruct (Hok _ Hin) as (Hs & (e' & He' & Hpe & _) & _). cbn in *.
      subst p'. apply better_of_keys.
      * by apply Hhd.
      * fold p. set_solver.
    + intros e' [->|He']%elem_of_cons Hlive.
      * right. left. cbn. fold p. set_solver.
      * rewrite <- Hos1 in Hlive.
        destruct (Hacc e' He' Hlive) as [Hs|[Hn'|[Hfull Hall]]].
        -- apply elem_of_union in Hs as [Hs|Hs]; [|by left].
           right. left. cbn. apply elem_of_singleton in Hs. rewrite Hs. set_solver.
        -- right. left. cbn. set_solver.
        -- right. right. rewrite <- app_assoc in Hfull. split; [done|].
           cbn. constructor; [|done]. unfold p.
           rewrite heap_key_price_of_key. by apply Hhd.
  - assert (bool_decide (p ∉ seen) && bool_decide (is_Some (orders b !! e_id e))
            = false) as ->.
    { destruct (bool_decide (p ∉ seen)) eqn:E1; [|done]. cbn.
      apply bool_decide_eq_false. intros ?. apply Hskip.
      split; [by apply bool_decide_eq_true in E1|done]. }
    destruct (IH seen acc b Hwf Hsorted)
      as (new & b' & -> & Hos & Hlv & Hh & Hn & Hok & Hss & Hacc).
    exists new, b'. do 5 (split; [done|]). split; [|split; [done|]].
    + eapply Forall_impl; [exact Hok|]. intros x (? & (e' & ? & ?) & ?).
      split; [done|]. split; [exists e'; set_solver|done].
    + intros e' [->|He']%elem_of_cons Hlive; [|by apply Hacc].
      left. fold p. destruct (decide (p ∈ seen)); [done|]. exfalso. by apply Hskip.
Qed.

Lemma accounted_top_of_book sd depth b lv :
  wf b →
  (∀ e, e ∈ heap sd b → is_Some (orders b !! e_id e) →
        accounted sd depth ∅ lv lv e) →
  top_of_book sd depth b lv.
Proof.
  intros Hwf Hacc id o Ho Hsd.
  pose proof (wf_cover _ Hwf _ _ Ho) as Hin. rewrite Hsd in Hin.
  destruct (Hacc _ Hin) as [Hs|[Hn|[Hfull Hall]]].
  { cbn. rewrite (wf_id _ Hwf _ _ Ho). by rewrite Ho. }
  - by apply elem_of_empty in Hs.
  - left. cbn in Hn. by rewrite Hsd, price_of_key_heap_key in Hn.
  - destruct (decide (price o ∈ (fst <$> lv))) as [|Hout]; [by left|].
    right. split; [done|]. intros p' Hp'. rewrite Forall_forall in Hall.
    specialize (Hall p' Hp'). cbn in Hall. rewrite Hsd in Hall.
    rewrite <- (price_of_key_heap_key sd p'), <- (price_of_key_heap_key sd (price o)).
    apply better_of_keys; [done|]. rewrite !price_of_key_heap_key. set_solver.
Qed.

Lemma get_order_book_snapshot_spec depth b :
  wf b →
  ∃ snap b',
    get_order_book_snapshot depth b = Some (snap, b') ∧
    orders b' = orders b ∧
    (∀ sd p, level sd p b' = level sd p b) ∧
    (∀ sd, heap sd b' = heap sd b) ∧
    (Z.of_nat (length (bids snap)) <= Z.max 0 depth) ∧
    (Z.of_nat (length (asks snap)) <= Z.max 0 depth) ∧
    Forall (level_ok Buy (buy_orders b) ∅ b) (bids snap) ∧
    Forall (level_ok Sell (sell_orders b) ∅ b) (asks snap) ∧
    StronglySorted (better Buy) (fst <$> bids snap) ∧
    StronglySorted (better Sell) (fst <$> asks snap) ∧
    top_of_book Buy depth b (bids snap) ∧
    top_of_book Sell depth b (asks snap).
Proof.
  intros Hwf. unfold get_order_book_snapshot.
  destruct (snapshot_side_spec Buy depth (buy_orders b) ∅ [] b Hwf)
    as (bs & b1 & -> & Hos1 & Hlv1 & Hh1 & Hn1 & Hok1 & Hs1 & Hacc1).
  { apply (wf_sorted _ Hwf Buy). }
  assert (Hwf1 : wf b1) by (by apply (wf_ext b)).
  destruct (snapshot_side_spec Sell depth (sell_orders b1) ∅ [] b1 Hwf1)
    as (ss & b2 & -> & Hos2 & Hlv2 & Hh2 & Hn2 & Hok2 & Hs2 & Hacc2).
  { apply (wf_sorted _ Hwf1 Sell). }
  pose proof (Hh1 Sell) as Hh1s. cbn [heap] in Hh1s.
  exists (mkSnapshot bs ss), b2. cbn in *. split; [done|].
  split; [congruence|]. split; [intros; by rewrite Hlv2|].
  split; [intros; by rewrite Hh2|]. do 3 (split; [done|]).
  split; [|split; [done|]; split; [done|]; split].
  - eapply Forall_impl; [exact Hok2|].
    intros x (? & (e & He & ? & Hl) & Hsum). rewrite Hos1 in Hl, Hsum.
    rewrite Hlv1 in Hsum. rewrite Hh1s in He.
    split; [done|]. split; [by exists e|done].
  - by apply accounted_top_of_book.
  - apply accounted_top_of_book; [done|]. intros e He Hlive.
    apply Hacc2; [by rewrite Hh1s|by rewrite Hos1].
Qed.

Lemma wf_get_order_book_snapshot depth b r b' :
  wf b → get_order_book_snapshot depth b = Some (r, b') → wf b'.
Proof.
  intros Hwf H.
  destruct (get_order_book_snapshot_spec depth b Hwf)
    as (snap & b2 & H2 & Hos & Hlv & Hh & _).
  rewrite H in H2. simplify_eq. by apply (wf_ext b).
Qed.

(** ** Every reachable book is well formed *)

Lemma wf_step o b b' : wf b → step o b = Some b' → wf b'.
Proof.
  intros Hwf. destruct o; cbn -[match_orders].
  - intros [= <-]. by apply wf_add_order.
  - destruct (cancel_order id b) as [[r b1]|] eqn:E; [|done].
    intros [= <-]. by eapply wf_cancel_order.
  - destruct (modify_order id new_price new_quantity b) as [[r b1]|] eqn:E; [|done].
    intros [= <-]. by eapply wf_modify_order.
  - intros [= <-]. by apply (wf_get_best Buy).
  - intros [= <-]. by apply (wf_get_best Sell).
  - intros [= <-]. by apply wf_get_spread.
  - destruct (get_order_book_snapshot depth b) as [[r b1]|] eqn:E; [|done].
    intros [= <-]. by eapply wf_get_order_book_snapshot.
  - destruct (match_orders b) as [[r b1]|] eqn:E; [|done].
    intros [= <-]. apply (wf_pass b r b1 Hwf). by apply match_orders_pass.
Qed.

Lemma wf_run ops b b' : wf b → run ops b = Some b' → wf b'.
Proof.
  revert b. induction ops as [|o ops IH]; intros b Hwf; cbn.
  - by intros [= <-].
  - destruct (step o b) as [b1|] eqn:E; [|done]. intros H.
    eapply IH; [|done]. by eapply wf_step.
Qed.

Lemma reachable_wf b : reachable b → wf b.
Proof. intros [ops H]. eapply wf_run; [apply wf_empty|done]. Qed.

(** No call raises on a reachable book. *)
Lemma step_returns o b : wf b → is_Some (step o b).
Proof.
  intros Hwf. destruct o; cbn -[match_orders]; try done.
  - destruct (orders b !! id) as [o|] eqn:E.
    + destruct (cancel_order_resting _ _ _ Hwf E) as (b' & -> & _). done.
    + by rewrite cancel_order_unknown.
  - destruct (orders b !! id) as [o|] eqn:E.
    + destruct new_price as [np|].
      * destruct (modify_order_price id o np new_quantity b Hwf E) as (? & _ & ->).
        done.
      * by rewrite (modify_order_quantity _ _ _ _ E).
    + by rewrite modify_order_unknown.
  - destruct (get_order_book_snapshot_spec depth b Hwf) as (? & ? & -> & _). done.
  - destruct (match_orders_returns b Hwf) as (? & ? & -> & _). done.
Qed.

(** ** The specification *)

(** C7. A failing operation is atomic: [add_order] with an id that is
    resting, and [cancel_order] and [modify_order] with an id that is not,
    return the failure result and the book they were given, unchanged in
    every component. *)
Theorem failed_operation_changes_nothing (b : OrderBook) (id : string) :
  (is_Some (orders b !! id) →
   ∀ now sd p q, add_order now id sd p q b = (false, b)) ∧
  (orders b !! id = None →
   cancel_order id b = Some (false, b) ∧
   ∀ np nq, modify_order id np nq b = Some (false, b)).
Proof.
  split.
  - intros H now sd p q. by apply add_order_taken.
  - intros H. split; [by apply cancel_order_unknown|].
    intros np nq. by apply modify_order_unknown.
Qed.

Lemma failed_operation_changes_nothing_witness :
  add_order 4 "buy1" "sell" (dec 101 1) 3 (book_of demo_ops)
    = (false, book_of demo_ops) ∧
  cancel_order "buy9" (book_of demo_ops) = Some (false, book_of demo_ops) ∧
  modify_order "buy9" (Some (dec 101 1)) (Some 3) (book_of demo_ops)
    = Some (false, book_of demo_ops).
Proof.
  split.
  - apply (failed_operation_changes_nothing (book_of demo_ops) "buy1").
    vm_compute. eauto.
  - destruct (failed_operation_changes_nothing (book_of demo_ops) "buy9")
      as [_ H].
    destruct H as [Hc Hm]; [vm_compute; reflexivity|].
    split; [exact Hc|apply Hm].
Defined.

(** C10. [add_order] validates neither price nor quantity: it fails exactly
    when the id is in the id-map, and for an id that is not, whatever the
    price and the quantity (zero and negative included), it stores the
    order as given, at the back of the queue of its side and price and on
    the heap of its side. *)
Theorem add_order_validates_nothing
    (b : OrderBook) (now : Z) (id sd : string) (p : Qc) (q : Z) :
  ((add_order now id sd p q b).1 = false ↔ is_Some (orders b !! id)) ∧
  (orders b !! id = None →
   (add_order now id sd p q b).1 = true ∧
   orders (add_order now id sd p q b).2 = <[id := mkOrder id sd p q now]> (orders b) ∧
   level (side_of sd) p (add_order now id sd p q b).2
     = level (side_of sd) p b ++ [id] ∧
   heap (side_of sd) (add_order now id sd p q b).2
     = heappush (heap (side_of sd) b) (mkEntry (heap_key (side_of sd) p) now id)).
Proof.
  split.
  - destruct (orders b !! id) as [o|] eqn:E.
    + rewrite add_order_taken by eauto. cbn. split; eauto.
    + rewrite add_order_fresh by done. cbn. split; [done|]. by intros [? ?].
  - intros E. rewrite add_order_fresh by done. cbn [fst snd].
    split; [done|]. split; [apply orders_insert_order|]. split.
    + rewrite level_insert_order. cbn. by rewrite decide_True.
    + rewrite heap_insert_order. cbn. by rewrite decide_True.
Qed.

Lemma add_order_validates_nothing_witness :
  (add_order 4 "odd" "sell" (dec (-5) 1) 0 (book_of demo_ops)).1 = true ∧
  orders (add_order 4 "odd" "sell" (dec (-5) 1) 0 (book_of demo_ops)).2
    !! "odd" = Some (mkOrder "odd" "sell" (dec (-5) 1) 0 4) ∧
  level Sell (dec (-5) 1)
    (add_order 4 "odd" "sell" (dec (-5) 1) 0 (book_of demo_ops)).2 = ["odd"].
Proof.
  destruct (add_order_validates_nothing (book_of demo_ops) 4 "odd" "sell"
              (dec (-5) 1) 0) as [_ H].
  destruct H as (H1 & H2 & H3 & _); [vm_compute; reflexivity|].
  split; [exact H1|]. split.
  - rewrite H2. apply lookup_insert_eq.
  - exact H3.
Defined.

(** C9. The worked example: after the three adds the best bid is 100, the
    best ask 102, the spread 2 and a matching pass trades nothing; after
    buy3 is added at 103 the pass produces the single trade
    (buy3, sell1, 102, 6), sell1 rests with quantity 6 and buy3 is gone from
    the id-map and from its queue.  The clock readings do not matter. *)
Theorem worked_example (t1 t2 t3 t4 : Z) :
  let b0 := (add_order t3 "sell1" "sell" (dec 102 1) 12
              (add_order t2 "buy2" "buy" (dec 995 10) 5
                (add_order t1 "buy1" "buy" (dec 100 1) 10 empty_book).2).2).2 in
  ∃ b1 b2 b3 b4 b5,
    get_best_bid b0 = (Some (dec 100 1), b1) ∧
    get_best_ask b1 = (Some (dec 102 1), b2) ∧
    get_spread b2 = (Some (dec 2 1), b3) ∧
    match_orders b3 = Some ([], b4) ∧
    match_orders (add_order t4 "buy3" "buy" (dec 103 1) 6 b4).2
      = Some ([mkTrade "buy3" "sell1" (dec 102 1) 6], b5) ∧
    orders b5 !! "sell1" = Some (mkOrder "sell1" "sell" (dec 102 1) 6 t3) ∧
    orders b5 !! "buy3" = None ∧
    level Buy (dec 103 1) b5 = [] ∧
    level Sell (dec 102 1) b5 = ["sell1"].
Proof.
  intros b0. do 5 eexists.
  split; [vm_compute; reflexivity|].
  split; [vm_compute; reflexivity|].
  split; [vm_compute; reflexivity|].
  split; [vm_compute; reflexivity|].
  split; [vm_compute; reflexivity|].
  repeat split; vm_compute; reflexivity.
Qed.

Lemma level_amend_quantity sd p nq id b :
  level sd p (amend_quantity nq id b) = level sd p b.
Proof. destruct nq; [apply level_set_orders|done]. Qed.

Lemma heap_amend_quantity sd nq id b :
  heap sd (amend_quantity nq id b) = heap sd b.
Proof. destruct nq; [apply heap_set_orders|done]. Qed.

Lemma reachable_demo : reachable (book_of demo_ops).
Proof. exists demo_ops. vm_compute. reflexivity. Qed.

(** C6. An amendment of the quantity alone rewrites the quantity of the
    order in the id-map and leaves both ledgers and both heaps as they
    were, so the order keeps its place in its queue.  An amendment that
    gives a price takes the order out of the queue it is in and puts it at
    the back of the queue of the new price (also when the new price is the
    old one), re-prices it, and pushes an entry for the new price. *)
Theorem amend_queue_position (b : OrderBook) (id : string) (o : Order) :
  reachable b → orders b !! id = Some o →
  (∀ q, ∃ b',
     modify_order id None (Some q) b = Some (true, b') ∧
     orders b' !! id = Some (set_quantity q o) ∧
     (∀ id', id' ≠ id → orders b' !! id' = orders b !! id') ∧
     price_levels_buy b' = price_levels_buy b ∧
     price_levels_sell b' = price_levels_sell b ∧
     buy_orders b' = buy_orders b ∧ sell_orders b' = sell_orders b) ∧
  (∀ np nq, ∃ b' o',
     modify_order id (Some np) nq b = Some (true, b') ∧
     level (side_of (side o)) np b'
       = filter (λ y, y ≠ id) (level (side_of (side o)) np b) ++ [id] ∧
     (∀ sd p, ¬ (sd = side_of (side o) ∧ p = np) →
        level sd p b' = filter (λ y, y ≠ id) (level sd p b)) ∧
     orders b' !! id = Some o' ∧ price o' = np ∧
     quantity o' = default (quantity o) nq ∧ side o' = side o ∧
     heap (side_of (side o)) b'
       = heappush (heap (side_of (side o)) b)
           (mkEntry (heap_key (side_of (side o)) np) (timestamp o) id)).
Proof.
  intros Hr Ho. pose proof (reachable_wf _ Hr) as Hwf.
  pose proof (wf_id _ Hwf _ _ Ho) as Hid. split.
  - intros q. eexists. split; [by apply (modify_order_quantity _ _ _ _ Ho)|].
    cbn. split; [by rewrite lookup_alter_eq, Ho|].
    split; [|done]. intros id' Hne. by rewrite lookup_alter_ne.
  - intros np nq.
    destruct (modify_order_price id o np nq b Hwf Ho) as (bc & Hc & ->).
    destruct (cancel_order_resting _ _ _ Hwf Ho) as (bc' & Hc' & Hos & Hlv & Hh).
    rewrite Hc' in Hc. simplify_eq.
    set (b1 := insert_order (set_price np o) bc).
    assert (Ho1 : orders b1 !! order_id o = Some (set_price np o)).
    { unfold b1. rewrite orders_insert_order. cbn. apply lookup_insert_eq. }
    subst b1.
    exists (amend_quantity nq (order_id o) (insert_order (set_price np o) bc)),
      (match nq with
       | Some q => set_quantity q (set_price np o)
       | None => set_price np o
       end).
    split; [done|]. rewrite !level_amend_quantity, heap_amend_quantity.
    rewrite !level_insert_order, heap_insert_order. cbn.
    rewrite !decide_True by done. rewrite Hlv, Hh.
    split; [done|]. split.
    { intros sd p Hsp. rewrite level_amend_quantity.
      rewrite level_insert_order. cbn.
      rewrite decide_False by done. apply Hlv. }
    split.
    { destruct nq as [q|]; cbn; [|exact Ho1]. by rewrite lookup_alter_eq, Ho1. }
    by destruct nq.
Qed.

Lemma amend_queue_position_witness :
  (∃ b', modify_order "buy1" None (Some 7) (book_of demo_ops) = Some (true, b') ∧
         price_levels_buy b' = price_levels_buy (book_of demo_ops)) ∧
  (∃ b', modify_order "buy1" (Some (dec 995 10)) None (book_of demo_ops)
           = Some (true, b') ∧
         level Buy (dec 995 10) b' = ["buy2"; "buy1"]).
Proof.
  destruct (amend_queue_position (book_of demo_ops) "buy1"
              (mkOrder "buy1" "buy" (dec 100 1) 10 1)) as [Hq Hp].
  - exists demo_ops. vm_compute. reflexivity.
  - vm_compute. reflexivity.
  - split.
    + destruct (Hq 7) as (b' & Hm & _ & _ & Hl & _). exists b'. split; assumption.
    + destruct (Hp (dec 995 10) None) as (b' & o' & Hm & Hl & _).
      exists b'. split; [assumption|].
      etransitivity; [exact Hl|]. vm_compute. reflexivity.
Defined.

Lemma head_elem_of (l : list string) x : head l = Some x → x ∈ l.
Proof. destruct l; [done|]. intros [= ->]. set_solver. Qed.

Lemma retired_spec left id o b :
  wf b → orders b !! id = Some o →
  ∃ b', retired left id b b' ∧ wf b' ∧
    (∀ id', orders b' !! id' =
            if decide (id' = id ∧ left = 0) then None else orders b !! id') ∧
    (∀ sd p, level sd p b' =
             filter (λ y, ¬ (y = id ∧ left = 0)) (level sd p b)) ∧
    (∀ sd, heap sd b' = heap sd b).
Proof.
  intros Hwf Ho. unfold retired. destruct (decide (left = 0)) as [Hz|Hz].
  - destruct (cancel_order_resting _ _ _ Hwf Ho) as (b' & Hc & Hos & Hlv & Hh).
    exists b'. split; [done|]. split; [by eapply wf_cancel_order|].
    split; [|split; [|done]].
    + intros id'. rewrite Hos. case_decide as E.
      * destruct E as [-> _]. apply lookup_delete_eq.
      * apply lookup_delete_ne. naive_solver.
    + intros sd p. rewrite Hlv. apply list_filter_iff. naive_solver.
  - exists b. split; [done|]. split; [done|]. split; [|split; [|done]].
    + intros id'. by rewrite decide_False by tauto.
    + intros sd p. symmetry. apply filter_all. tauto.
Qed.

Lemma wf_in_pass b0 b : wf b0 → in_pass b0 b → wf b.
Proof.
  intros Hwf Hp. induction Hp as [|b t b1 Hp IH Hi]; [done|].
  apply (wf_match_iter _ _ IH Hi).
Qed.

(** C2. A pass of the loop that trades takes the front order [bo] of the
    queue at the best bid and the front order [so] of the queue at the best
    ask.  The trade carries the two ids, the price of [so] and the minimum
    of the two quantities; both quantities go down by that amount; every
    other order is left alone; and an order of which nothing is left is
    taken out by [cancel_order], so it leaves the id-map and its queue while
    its heap entries stay.  This holds for every pass of the loop of a
    call of [match_orders] on a reachable book. *)
Theorem trade_of_one_pass (b0 b : OrderBook) (t : Trade) (b' : OrderBook) :
  reachable b0 → in_pass b0 b → match_iter b = Some (Continue t b') →
  ∃ bb ba bo so,
    (get_best_bid b).1 = Some bb ∧ (get_best_ask b).1 = Some ba ∧
    head (level Buy bb b) = Some (order_id bo) ∧
    orders b !! order_id bo = Some bo ∧
    head (level Sell ba b) = Some (order_id so) ∧
    orders b !! order_id so = Some so ∧
    t = mkTrade (order_id bo) (order_id so) (price so)
          (Z.min (quantity bo) (quantity so)) ∧
    orders b' !! order_id bo =
      (if decide (quantity bo - t_quantity t = 0) then None
       else Some (set_quantity (quantity bo - t_quantity t) bo)) ∧
    orders b' !! order_id so =
      (if decide (quantity so - t_quantity t = 0) then None
       else Some (set_quantity (quantity so - t_quantity t) so)) ∧
    (∀ id, id ≠ order_id bo → id ≠ order_id so →
           orders b' !! id = orders b !! id) ∧
    (∀ sd p id, id ∈ level sd p b' ↔
                id ∈ level sd p b ∧ is_Some (orders b' !! id)) ∧
    (∀ sd, heap sd b' = heap sd (settled b)) ∧
    ∃ b1 b2,
      retired (quantity bo - t_quantity t) (order_id bo)
        (set_orders
           (alter (sub_quantity (t_quantity t)) (order_id so)
              (alter (sub_quantity (t_quantity t)) (order_id bo) (orders b)))
           (settled b)) b1 ∧
      retired (quantity so - t_quantity t) (order_id so) b1 b2 ∧
      same_book b' b2.
Proof.
  intros Hr Hpass Hi.
  pose proof (wf_in_pass _ _ (reachable_wf _ Hr) Hpass) as Hwf.
  destruct (match_iter_spec b Hwf) as (r & Hr' & Hspec).
  rewrite Hi in Hr'. simplify_eq.
  destruct Hspec as (bb & ba & bo & so & Hbb & Hba & _ & Hhb & Hhs & Hbo & Hso
                     & -> & [Hos Hlv Hh]).
  exists bb, ba, bo, so. cbn [t_quantity].
  set (mq := Z.min (quantity bo) (quantity so)) in *.
  destruct (wf_level_unique _ _ _ _ _ Hwf Hbo (head_elem_of _ _ Hhb)) as [Hsb _].
  destruct (wf_level_unique _ _ _ _ _ Hwf Hso (head_elem_of _ _ Hhs)) as [Hss _].
  assert (Hne : order_id bo ≠ order_id so).
  { intros E. rewrite E in Hbo. simplify_eq. congruence. }
  rewrite orders_settled in Hos.
  set (os2 := alter (sub_quantity mq) (order_id so)
                (alter (sub_quantity mq) (order_id bo) (orders b))) in *.
  assert (H2b : os2 !! order_id bo = Some (sub_quantity mq bo)).
  { unfold os2. rewrite lookup_alter_ne by done. by rewrite lookup_alter_eq, Hbo. }
  assert (H2s : os2 !! order_id so = Some (sub_quantity mq so)).
  { unfold os2. rewrite lookup_alter_eq, lookup_alter_ne by done. by rewrite Hso. }
  assert (H2o : ∀ id, id ≠ order_id bo → id ≠ order_id so →
                      os2 !! id = orders b !! id).
  { intros id H1 H2. unfold os2. by rewrite !lookup_alter_ne. }
  do 7 (split; [done|]). split; [|split; [|split; [|split; [|split]]]].
  - rewrite Hos, H2b. unfold unfilled. fold mq.
    repeat case_decide; try done; exfalso; naive_solver lia.
  - rewrite Hos, H2s. unfold unfilled. fold mq.
    repeat case_decide; try done; exfalso; naive_solver lia.
  - intros id H1 H2. rewrite Hos, H2o by done.
    rewrite decide_True; [done|]. unfold unfilled. naive_solver.
  - intros sd p id. rewrite Hlv, level_settled, list_elem_of_filter, Hos.
    split.
    + intros [Hu Hin]. split; [done|]. rewrite decide_True by done.
      destruct (wf_live _ Hwf _ _ _ Hin) as (o & Ho & _).
      destruct (decide (id = order_id bo)) as [->|]; [by rewrite H2b|].
      destruct (decide (id = order_id so)) as [->|]; [by rewrite H2s|].
      rewrite H2o by done. by rewrite Ho.
    + intros [Hin Hsome]. split; [|done]. case_decide; [done|].
      by destruct Hsome.
  - done.
  - set (bd := set_orders os2 (settled b)).
    assert (Hwfd : wf bd).
    { unfold bd, os2.
      change (set_orders (alter (sub_quantity mq) (order_id so)
                (alter (sub_quantity mq) (order_id bo) (orders b))) (settled b))
        with (set_orders
                (alter (sub_quantity mq) (order_id so)
                   (orders (set_orders
                      (alter (sub_quantity mq) (order_id bo) (orders b))
                      (settled b))))
                (set_orders (alter (sub_quantity mq) (order_id bo) (orders b))
                   (settled b))).
      apply wf_alter; [done|].
      rewrite <- (orders_settled b). apply wf_alter; [done|]. by apply wf_settled. }
    destruct (retired_spec (quantity bo - mq) (order_id bo) _ bd Hwfd H2b)
      as (b1 & Hr1 & Hwf1 & Hos1 & Hlv1 & Hh1).
    destruct (retired_spec (quantity so - mq) (order_id so)
                (sub_quantity mq so) b1 Hwf1)
      as (b2 & Hr2 & Hwf2 & Hos2 & Hlv2 & Hh2).
    { rewrite Hos1. rewrite decide_False by naive_solver. exact H2s. }
    exists b1, b2. do 2 (split; [done|]). split; [|split].
    + apply map_eq. intros id. rewrite Hos, Hos2, Hos1. cbn [bd set_orders orders].
      unfold unfilled. fold mq.
      repeat case_decide; try done; exfalso; naive_solver lia.
    + intros sd p. rewrite Hlv, Hlv2, Hlv1. unfold bd.
      rewrite level_set_orders, list_filter_filter. apply list_filter_iff.
      intros id. unfold unfilled. fold mq. naive_solver lia.
    + intros sd. rewrite Hh, Hh2, Hh1. unfold bd. by rewrite heap_set_orders.
Qed.

Lemma trade_of_one_pass_witness :
  ∃ bo so,
    mkTrade "buy3" "sell1" (dec 102 1) 6
      = mkTrade (order_id bo) (order_id so) (price so)
          (Z.min (quantity bo) (quantity so)) ∧
    orders after_first_pass !! order_id bo =
      (if decide (quantity bo - 6 = 0) then None
       else Some (set_quantity (quantity bo - 6) bo)).
Proof.
  destruct (trade_of_one_pass (book_of fresh_cross_ops)
              (book_of fresh_cross_ops)
              (mkTrade "buy3" "sell1" (dec 102 1) 6) after_first_pass)
    as (bb & ba & bo & so & _ & _ & _ & _ & _ & _ & Ht & Hbo & _).
  - exists fresh_cross_ops. vm_compute. reflexivity.
  - constructor.
  - vm_compute. reflexivity.
  - exists bo, so. split; [exact Ht|exact Hbo].
Defined.

(** ** Time priority *)

Lemma precedes_elem_of A B l : precedes A B l → A ∈ l ∧ B ∈ l.
Proof. intros (l1 & l2 & l3 & ->). set_solver. Qed.

Lemma precedes_app_r A B l k : precedes A B l → precedes A B (l ++ k).
Proof.
  intros (l1 & l2 & l3 & ->). exists l1, l2, (l3 ++ k).
  by rewrite <- !app_assoc, <- !app_comm_cons, <- !app_assoc.
Qed.

Lemma precedes_snoc A B l : A ∈ l → precedes A B (l ++ [B]).
Proof.
  intros (l1 & l2 & ->)%list_elem_of_split. exists l1, l2, [].
  by rewrite <- !app_assoc.
Qed.

Lemma precedes_filter (P : string → Prop) `{!∀ x, Decision (P x)} A B l :
  precedes A B l → P A → P B → precedes A B (filter P l).
Proof.
  intros (l1 & l2 & l3 & ->) HA HB.
  exists (filter P l1), (filter P l2), (filter P l3).
  rewrite filter_app, filter_cons_True by done.
  by rewrite filter_app, filter_cons_True by done.
Qed.

Lemma precedes_head A B l : NoDup l → precedes A B l → head l ≠ Some B.
Proof.
  intros Hnd (l1 & l2 & l3 & ->) Hhd.
  destruct l1 as [|x l1]; cbn in Hhd; simplify_eq.
  - apply NoDup_cons in Hnd as [Hnd _]. set_solver.
  - rewrite <- app_comm_cons in Hnd. apply NoDup_cons in Hnd as [Hnd _]. set_solver.
Qed.

Lemma filter_ext_in (P Q : string → Prop)
    `{!∀ x, Decision (P x)} `{!∀ x, Decision (Q x)} (l : list string) :
  (∀ x, x ∈ l → (P x ↔ Q x)) → filter P l = filter Q l.
Proof.
  induction l as [|y l IH]; intros Hpq; [done|].
  rewrite !filter_cons. rewrite IH by (intros x Hx; apply Hpq; set_solver).
  destruct (decide (P y)) as [Hp|Hp], (decide (Q y)) as [Hq|Hq]; try done;
    exfalso; apply (Hpq y) in Hp || apply (Hpq y) in Hq; set_solver.
Qed.

Lemma shrinks_same b b' :
  wf b → (∀ id, is_Some (orders b' !! id) ↔ is_Some (orders b !! id)) →
  (∀ sd p, level sd p b' = level sd p b) → shrinks b b'.
Proof.
  intros Hwf Hos Hlv. split; [intros id; apply Hos|].
  intros sd p. rewrite Hlv. symmetry. apply filter_all. intros id Hin.
  apply Hos. destruct (wf_live _ Hwf _ _ _ Hin) as (o & -> & _). done.
Qed.

Lemma shrinks_trans b1 b2 b3 : shrinks b1 b2 → shrinks b2 b3 → shrinks b1 b3.
Proof.
  intros [Hos1 Hlv1] [Hos2 Hlv2]. split; [naive_solver|].
  intros sd p. rewrite Hlv2, Hlv1, list_filter_filter.
  apply list_filter_iff. naive_solver.
Qed.

Lemma shrinks_cancel_order id b r b' :
  wf b → cancel_order id b = Some (r, b') → shrinks b b'.
Proof.
  intros Hwf Hc. destruct (orders b !! id) as [o|] eqn:Ho.
  - destruct (cancel_order_resting _ _ _ Hwf Ho) as (b2 & Hc2 & Hos & Hlv & _).
    rewrite Hc2 in Hc. simplify_eq. split.
    + intros id'. rewrite Hos, lookup_delete. by case_decide.
    + intros sd p. rewrite Hlv. apply filter_ext_in. intros x Hx.
      rewrite Hos, lookup_delete.
      destruct (wf_live _ Hwf _ _ _ Hx) as (o' & -> & _).
      case_decide; naive_solver.
  - rewrite cancel_order_unknown in Hc by done. simplify_eq.
    by apply shrinks_same.
Qed.

(** What a trading pass does to the queues: the traded orders were at the
    front of their queues, and only traded orders leave. *)
Lemma match_iter_queue b t b1 :
  wf b → match_iter b = Some (Continue t b1) →
  shrinks b b1 ∧
  (∀ sd p id, id ∈ level sd p b → orders b1 !! id = None → trade_id sd t = id) ∧
  (∀ sd p, trade_id sd t ∈ level sd p b →
           head (level sd p b) = Some (trade_id sd t)) ∧
  (∀ sd, is_Some (orders b !! trade_id sd t)).
Proof.
  intros Hwf Hi. destruct (match_iter_spec b Hwf) as (r & Hr & Hspec).
  rewrite Hi in Hr. simplify_eq.
  destruct Hspec as (bb & ba & bo & so & _ & _ & _ & Hhb & Hhs & Hbo & Hso
                     & -> & [Hos Hlv Hh]).
  set (mq := Z.min (quantity bo) (quantity so)) in *.
  rewrite orders_settled in Hos.
  destruct (wf_level_unique _ _ _ _ _ Hwf Hbo (head_elem_of _ _ Hhb)) as [Hsb Hpb].
  destruct (wf_level_unique _ _ _ _ _ Hwf Hso (head_elem_of _ _ Hhs)) as [Hss Hps].
  assert (Halt : ∀ id, is_Some (orders b !! id) ↔
    is_Some (alter (sub_quantity mq) (order_id so)
               (alter (sub_quantity mq) (order_id bo) (orders b)) !! id)).
  { intros id. rewrite !lookup_alter.
    repeat case_decide; subst; rewrite ?fmap_is_Some; done. }
  assert (Hlive : ∀ id, is_Some (orders b !! id) →
            (is_Some (orders b1 !! id) ↔ unfilled mq bo so id)).
  { intros id Hin. rewrite Hos. case_decide; [|by split; [intros []|]].
    split; [done|]. intros _. by apply Halt. }
  split; [split|split; [|split]].
  - intros id. rewrite Hos. case_decide; [|by intros []]. apply Halt.
  - intros sd p. rewrite Hlv, level_settled. apply filter_ext_in.
    intros id Hin. symmetry. apply Hlive.
    destruct (wf_live _ Hwf _ _ _ Hin) as (o & -> & _). done.
  - intros sd p id Hin Hnone.
    destruct (wf_live _ Hwf _ _ _ Hin) as (o & Ho & Hs & Hp).
    assert (Hnu : ¬ unfilled mq bo so id).
    { intros Hu. apply Hlive in Hu; [|by rewrite Ho]. rewrite Hnone in Hu.
      by destruct Hu. }
    unfold unfilled in Hnu.
    destruct (decide (id = order_id bo)) as [->|Hnb].
    { simplify_eq. by rewrite <- Hsb. }
    destruct (decide (id = order_id so)) as [->|Hns].
    { simplify_eq. by rewrite <- Hss. }
    exfalso. apply Hnu. naive_solver.
  - intros [] p Hin; cbn in *.
    + destruct (wf_level_unique _ _ _ _ _ Hwf Hbo Hin) as [_ ->]. by rewrite <- Hpb.
    + destruct (wf_level_unique _ _ _ _ _ Hwf Hso Hin) as [_ ->]. by rewrite <- Hps.
  - intros []; cbn; eauto.
Qed.

Lemma shrinks_break b b' : wf b → match_iter b = Some (Break b') → shrinks b b'.
Proof.
  intros Hwf Hi. destruct (match_iter_spec b Hwf) as (r & Hr & Hspec).
  rewrite Hi in Hr. simplify_eq. destruct Hspec as (Hos & Hlv & _).
  apply shrinks_same; [done| |done]. intros id. by rewrite Hos.
Qed.

Lemma shrinks_pass b ts b' : wf b → pass b ts b' → shrinks b b'.
Proof.
  intros Hwf Hp. induction Hp as [b b' Hi|b t b1 ts b' Hi Hp IH].
  - by apply shrinks_break.
  - eapply shrinks_trans; [by apply (match_iter_queue b t b1)|].
    apply IH. apply (wf_match_iter _ _ Hwf Hi).
Qed.

(** Only orders that rest when the pass starts are traded in it. *)
Lemma pass_trades_resting b ts b' sd t :
  wf b → pass b ts b' → t ∈ ts → is_Some (orders b !! trade_id sd t).
Proof.
  intros Hwf Hp. induction Hp as [b b' Hi|b t1 b1 ts b' Hi Hp IH]; intros Hin.
  - by apply elem_of_nil in Hin.
  - destruct (match_iter_queue b t1 b1 Hwf Hi) as ([Hsub _] & _ & _ & Hlive).
    apply elem_of_cons in Hin as [->|Hin]; [apply Hlive|].
    apply Hsub, IH; [|done]. apply (wf_match_iter _ _ Hwf Hi).
Qed.

(** Within one call of [match_orders], queue order is trade order. *)
Lemma pass_fifo A B sd p b ts b' :
  wf b → pass b ts b' → precedes A B (level sd p b) →
  ∀ j t, ts !! j = Some t → trade_id sd t = B →
  ∃ i t', (i < j)%nat ∧ ts !! i = Some t' ∧ trade_id sd t' = A.
Proof.
  intros Hwf Hp. induction Hp as [b b' Hi|b t1 b1 ts b' Hi Hp IH];
    intros Hprec j t Hj Ht; [done|].
  destruct (match_iter_queue b t1 b1 Hwf Hi) as ([Hsub Hlv] & Hgone & Hfront & _).
  destruct (precedes_elem_of _ _ _ Hprec) as [HA HB].
  assert (H1 : trade_id sd t1 ≠ B).
  { intros E. apply (precedes_head A B (level sd p b)); [apply Hwf|done|].
    rewrite <- E. apply Hfront. by rewrite E. }
  destruct j as [|j]; cbn in Hj; [by simplify_eq|].
  destruct (decide (trade_id sd t1 = A)) as [E|HnA].
  { exists 0%nat, t1. split; [lia|done]. }
  destruct (IH (wf_match_iter _ _ Hwf Hi)) with (j := j) (t := t)
    as (i & t' & Hlt & Hi' & Ht'); [|done|done|].
  - rewrite Hlv. apply precedes_filter; [done| |].
    + destruct (orders b1 !! A) eqn:E; [done|]. exfalso. by eapply HnA, Hgone.
    + destruct (orders b1 !! B) eqn:E; [done|]. exfalso. by eapply H1, Hgone.
  - exists (S i), t'. split; [lia|done].
Qed.

Lemma in_order_shrinks A B sd p b b' :
  shrinks b b' → in_order A B sd p b → in_order A B sd p b'.
Proof.
  intros [Hsub Hlv] H HA HB. rewrite Hlv.
  apply precedes_filter; [|done|done]. apply H; by apply Hsub.
Qed.

Lemma in_order_insert_order A B sd p o b :
  order_id o ≠ A → order_id o ≠ B →
  in_order A B sd p b → in_order A B sd p (insert_order o b).
Proof.
  intros HA HB H. unfold in_order.
  rewrite orders_insert_order, !lookup_insert_ne, level_insert_order by done.
  intros H1 H2. case_decide; [apply precedes_app_r|]; by apply H.
Qed.

Lemma in_order_amend_quantity A B sd p nq id b :
  in_order A B sd p b → in_order A B sd p (amend_quantity nq id b).
Proof.
  intros H. unfold in_order. rewrite level_amend_quantity.
  assert (Hdom : ∀ x, is_Some (orders (amend_quantity nq id b) !! x) →
                      is_Some (orders b !! x)).
  { intros x. destruct nq; [|done]. cbn. rewrite lookup_alter.
    case_decide; subst; rewrite ?fmap_is_Some; done. }
  intros H1 H2. apply H; by apply Hdom.
Qed.

Lemma in_order_step A B sd p o b b' :
  wf b → unamended A B o → in_order A B sd p b → step o b = Some b' →
  in_order A B sd p b'.
Proof.
  intros Hwf Hun H. destruct o; cbn -[match_orders] in *.
  - intros [= <-]. destruct (orders b !! id) eqn:E.
    + by rewrite add_order_taken.
    + rewrite add_order_fresh by done. cbn. apply in_order_insert_order; tauto.
  - destruct (cancel_order id b) as [[r b1]|] eqn:E; [|done]. intros [= <-].
    eapply in_order_shrinks; [|done]. by eapply shrinks_cancel_order.
  - destruct (orders b !! id) as [o|] eqn:Ho.
    + destruct new_price as [np|].
      * destruct (modify_order_price id o np new_quantity b Hwf Ho)
          as (bc & Hc & ->). intros [= <-].
        apply in_order_amend_quantity. rewrite <- (wf_id _ Hwf _ _ Ho) in Hun.
        apply in_order_insert_order; [tauto|tauto|].
        eapply in_order_shrinks; [|done]. by eapply shrinks_cancel_order.
      * rewrite (modify_order_quantity _ _ _ _ Ho). intros [= <-].
        by apply in_order_amend_quantity.
    + rewrite modify_order_unknown by done. by intros [= <-].
  - intros [= <-]. eapply in_order_shrinks; [|done].
    apply shrinks_same; [done| |].
    + intros x. by rewrite (orders_get_best Buy).
    + intros sd' p'. unfold level. by rewrite (levels_get_best Buy).
  - intros [= <-]. eapply in_order_shrinks; [|done].
    apply shrinks_same; [done| |].
    + intros x. by rewrite (orders_get_best Sell).
    + intros sd' p'. unfold level. by rewrite (levels_get_best Sell).
  - intros [= <-]. rewrite get_spread_eq. cbn [snd]. fold (settled b).
    eapply in_order_shrinks; [|done]. apply shrinks_same; [done| |].
    + intros x. by rewrite orders_settled.
    + intros sd' p'. apply level_settled.
  - destruct (get_order_book_snapshot_spec depth b Hwf)
      as (snap & b2 & -> & Hos & Hlv & _). intros [= <-].
    eapply in_order_shrinks; [|done]. apply shrinks_same; [done| |done].
    intros x. by rewrite Hos.
  - destruct (match_orders b) as [[ts b1]|] eqn:E; [|done]. intros [= <-].
    eapply in_order_shrinks; [|done].
    eapply shrinks_pass; [done|]. by apply match_orders_pass.
Qed.

Lemma in_order_run A B sd p ops b b' :
  wf b → Forall (unamended A B) ops → in_order A B sd p b →
  run ops b = Some b' → in_order A B sd p b'.
Proof.
  revert b. induction ops as [|o ops IH]; intros b Hwf Hun H; cbn.
  - by intros [= <-].
  - apply Forall_cons in Hun as [Ho Hun].
    destruct (step o b) as [b1|] eqn:E; [|done]. intros Hrun.
    apply (IH b1); [by eapply wf_step|done| |done].
    by eapply in_order_step.
Qed.

(** C5. Time priority within a price level.  Let [A] rest at a side and a
    price, and let [B] be added there afterwards.  Whatever calls follow, as
    long as none of them amends the price of [A] or of [B] (or gives one of
    the two ids to a new order), a matching pass that starts with [A] still
    resting trades [A] before it trades [B]: every trade of [B] in the
    returned sequence comes after a trade of [A]. *)
Theorem fifo_within_level
    (b0 : OrderBook) (A B sd : string) (p : Qc) (now q : Z)
    (ops : list Op) (b2 : OrderBook) (ts : list Trade) (b3 : OrderBook) :
  reachable b0 →
  A ∈ level (side_of sd) p b0 →
  orders b0 !! B = None →
  Forall (unamended A B) ops →
  run ops (add_order now B sd p q b0).2 = Some b2 →
  is_Some (orders b2 !! A) →
  match_orders b2 = Some (ts, b3) →
  ∀ j t, ts !! j = Some t → trade_id (side_of sd) t = B →
  ∃ i t', (i < j)%nat ∧ ts !! i = Some t' ∧ trade_id (side_of sd) t' = A.
Proof.
  intros Hr HA HB Hun Hrun HA2 Hm j t Hj Ht.
  pose proof (reachable_wf _ Hr) as Hwf0.
  pose proof (wf_add_order now B sd p q b0 Hwf0) as Hwf1.
  pose proof (wf_run _ _ _ Hwf1 Hrun) as Hwf2.
  pose proof (match_orders_pass _ _ _ Hm) as Hp.
  assert (H1 : in_order A B (side_of sd) p (add_order now B sd p q b0).2).
  { intros _ _. rewrite add_order_fresh by done. cbn [snd].
    rewrite level_insert_order. cbn. rewrite decide_True by done.
    by apply precedes_snoc. }
  pose proof (in_order_run _ _ _ _ _ _ _ Hwf1 Hun H1 Hrun) as H2.
  eapply (pass_fifo A B); [exact Hwf2|exact Hp| |exact Hj|exact Ht].
  apply H2; [done|]. rewrite <- Ht.
  eapply pass_trades_resting; [done|exact Hp|].
  by eapply list_elem_of_lookup_2.
Qed.

Lemma fifo_within_level_witness :
  ∃ i t', (i < 1)%nat ∧ fifo_trades !! i = Some t' ∧ trade_id Buy t' = "a1".
Proof.
  apply (fifo_within_level fifo_start "a1" "b2" "buy" (dec 100 1) 2 5
           fifo_ops fifo_book fifo_trades
           (default empty_book (snd <$> match_orders fifo_book)))
    with (t := mkTrade "b2" "s1" (dec 100 1) 3).
  - exists [Add 1 "a1" "buy" (dec 100 1) 5]. vm_compute. reflexivity.
  - assert (E : level (side_of "buy") (dec 100 1) fifo_start = ["a1"])
      by (vm_compute; reflexivity).
    rewrite E. apply list_elem_of_here.
  - vm_compute. reflexivity.
  - repeat constructor; discriminate.
  - vm_compute. reflexivity.
  - assert (E : orders fifo_book !! "a1"
                = Some (mkOrder "a1" "buy" (dec 100 1) 5 1))
      by (vm_compute; reflexivity).
    rewrite E. eexists. reflexivity.
  - vm_compute. reflexivity.
  - reflexivity.
  - reflexivity.
Defined.

(** ** Stale prices *)

Lemma no_staleb_sound b : no_staleb b = true → no_stale b.
Proof.
  unfold no_staleb. rewrite andb_true_iff, !forallb_forall.
  intros [Hb Hs] sd e o He Ho.
  assert (Hok : no_stale_entry (orders b) sd e = true).
  { destruct sd; [apply Hb|apply Hs]; by apply list_elem_of_In. }
  unfold no_stale_entry in Hok. rewrite Ho in Hok.
  by apply bool_decide_eq_true in Hok.
Qed.

Lemma no_stale_shrink b b' :
  no_stale b →
  (∀ sd e, e ∈ heap sd b' → e ∈ heap sd b) →
  (∀ id o', orders b' !! id = Some o' →
     ∃ o, orders b !! id = Some o ∧ side o' = side o ∧ price o' = price o) →
  no_stale b'.
Proof.
  intros Hns Hh Hos sd e o' He Ho'.
  destruct (Hos _ _ Ho') as (o & Ho & -> & ->). by apply Hns; [apply Hh|].
Qed.

Lemma elem_of_heap_settled sd b e : e ∈ heap sd (settled b) → e ∈ heap sd b.
Proof.
  rewrite heap_settled. intros He.
  destruct (discover_suffix (orders b) (heap sd b)) as [k Hk].
  rewrite Hk. set_solver.
Qed.

Lemma no_stale_match_iter b r :
  wf b → no_stale b → match_iter b = Some r →
  match r with Break b' => no_stale b' | Continue _ b' => no_stale b' end.
Proof.
  intros Hwf Hns Hi. destruct (match_iter_spec b Hwf) as (r' & Hr & Hspec).
  rewrite Hi in Hr. simplify_eq. destruct r' as [b'|t b'].
  - destruct Hspec as (Hos & _ & Hh & _). apply (no_stale_shrink b); [done| |].
    + intros sd e. rewrite Hh. apply elem_of_heap_settled.
    + intros id o'. rewrite Hos. eauto.
  - destruct Hspec as (bb & ba & bo & so & _ & _ & _ & _ & _ & _ & _ & _
                       & [Hos _ Hh]).
    rewrite orders_settled in Hos. apply (no_stale_shrink b); [done| |].
    + intros sd e. rewrite Hh. apply elem_of_heap_settled.
    + intros id o'. rewrite Hos. case_decide; [|done].
      intros H2. apply lookup_alter_Some in H2 as [(_ & o1 & H1 & ->)|[_ H1]];
        apply lookup_alter_Some in H1 as [(_ & o & Ho & ->)|[_ Ho]]; eauto.
Qed.

Lemma no_stale_pass b ts b' : wf b → no_stale b → pass b ts b' → no_stale b'.
Proof.
  intros Hwf Hns Hp. induction Hp as [b b' Hi|b t b1 ts b' Hi Hp IH].
  - apply (no_stale_match_iter _ _ Hwf Hns Hi).
  - apply IH; [apply (wf_match_iter _ _ Hwf Hi)|].
    apply (no_stale_match_iter _ _ Hwf Hns Hi).
Qed.

(** The price that discovery reports on a side without stale prices is
    the price of a resting order of that side. *)
Lemma get_best_no_stale sd b p :
  wf b → no_stale b → (get_best sd b).1 = Some p → level sd p b ≠ [].
Proof.
  intros Hwf Hns. rewrite get_best_eq. cbn [fst].
  destruct (discover (orders b) (heap sd b)) as [[k|] h] eqn:E; [|done].
  cbn. intros [= <-].
  destruct (discover_Some _ _ _ _ E) as (e & rest & -> & <- & [o Ho] & Hin).
  destruct (Hns sd e o Hin Ho) as [Hsd Hk]. rewrite Hk, price_of_key_heap_key.
  pose proof (wf_rests _ Hwf _ _ Ho) as Hrest. rewrite Hsd in Hrest.
  intros Hnil. rewrite Hnil in Hrest. by apply elem_of_nil in Hrest.
Qed.

(** Without a live entry on its heap a side has no resting order. *)
Lemma get_best_None_side_empty sd b :
  wf b → (get_best sd b).1 = None → ∀ id o,
  orders b !! id = Some o → side_of (side o) ≠ sd.
Proof.
  intros Hwf. rewrite get_best_eq. cbn [fst].
  destruct (discover (orders b) (heap sd b)) as [[k|] h] eqn:E; [done|].
  intros _ id o Ho Hsd. destruct (discover_None _ _ _ E) as [_ Hdead].
  pose proof (wf_cover _ Hwf _ _ Ho) as Hin. rewrite Hsd in Hin.
  specialize (Hdead _ Hin). cbn in Hdead.
  rewrite (wf_id _ Hwf _ _ Ho) in Hdead. congruence.
Qed.

(** ** After a matching pass *)

Lemma quiet_pass b ts b' : wf b → pass b ts b' → quiet b'.
Proof.
  intros Hwf Hp. induction Hp as [b b' Hi|b t b1 ts b' Hi Hp IH].
  - destruct (match_iter_spec b Hwf) as (r & Hr & Hspec).
    rewrite Hi in Hr. simplify_eq. destruct Hspec as (Hos & Hlv & Hh & Hq).
    assert (Hbest : ∀ sd, (get_best sd b').1 = (get_best sd b).1).
    { intros sd. rewrite (get_best_stable sd b' b); [done|done|].
      by rewrite Hh, heap_settled. }
    pose proof (Hbest Buy) as HB. pose proof (Hbest Sell) as HS.
    cbn [get_best] in HB, HS. unfold quiet in *. rewrite HB, HS.
    destruct (get_best_bid b).1 as [bb|]; [|done].
    destruct (get_best_ask b).1 as [ba|]; [|done]. by rewrite !Hlv.
  - apply IH. apply (wf_match_iter _ _ Hwf Hi).
Qed.

(** C1, as stated, fails: in the book of [stale_ops] the pass stops at the
    emptied queue of 105 without a trade, and afterwards the best bid is
    reported as 105, the best ask as 100, with orders resting on both
    sides (the bid at 101 and the ask at 100 still cross). *)
Lemma stale_entry_stops_matching :
  ∃ b b', reachable b ∧ match_orders b = Some ([], b') ∧ ¬ uncrossed b'.
Proof.
  exists (book_of stale_ops),
         (default empty_book (snd <$> match_orders (book_of stale_ops))).
  split; [exists stale_ops; vm_compute; reflexivity|].
  split; [vm_compute; reflexivity|].
  set (b' := default empty_book (snd <$> match_orders (book_of stale_ops))).
  assert (Eb : (get_best_bid b').1 = Some (dec 105 1)) by (vm_compute; reflexivity).
  assert (Ea : (get_best_ask b').1 = Some (dec 100 1)) by (vm_compute; reflexivity).
  intros [(bb & ba & Hb & Ha & Hlt)|[He|He]].
  - rewrite Eb in Hb. rewrite Ea in Ha. simplify_eq.
    vm_compute in Hlt. discriminate.
  - apply (He "b2" (mkOrder "b2" "buy" (dec 101 1) 5 2)); vm_compute; reflexivity.
  - apply (He "s1" (mkOrder "s1" "sell" (dec 100 1) 7 3)); vm_compute; reflexivity.
Qed.

(** C1, amended.  On every reachable book [match_orders] returns, and in
    the state it leaves a best bid or a best ask is missing, or the best bid
    is below the best ask, or the queue at the reported best bid or best
    ask is empty.  When no heap entry is stale in price, the last case does
    not arise: then the best bid is below the best ask or a side has no
    resting order. *)
Theorem match_orders_leaves_quiet (b : OrderBook) :
  reachable b →
  ∃ ts b', match_orders b = Some (ts, b') ∧
    match (get_best_bid b').1, (get_best_ask b').1 with
    | Some bb, Some ba =>
      (bb < ba)%Qc ∨ level Buy bb b' = [] ∨ level Sell ba b' = []
    | _, _ => True
    end ∧
    (no_stale b → uncrossed b').
Proof.
  intros Hr. pose proof (reachable_wf _ Hr) as Hwf.
  destruct (match_orders_returns b Hwf) as (ts & b' & Hm & Hp).
  exists ts, b'. split; [done|].
  pose proof (quiet_pass b ts b' Hwf Hp) as Hq. split; [exact Hq|].
  intros Hns. pose proof (wf_pass _ _ _ Hwf Hp) as Hwf'.
  pose proof (no_stale_pass _ _ _ Hwf Hns Hp) as Hns'.
  unfold quiet in Hq. unfold uncrossed.
  destruct (get_best_bid b').1 as [bb|] eqn:Eb.
  2:{ right. left. exact (get_best_None_side_empty Buy b' Hwf' Eb). }
  destruct (get_best_ask b').1 as [ba|] eqn:Ea.
  2:{ right. right. exact (get_best_None_side_empty Sell b' Hwf' Ea). }
  left. exists bb, ba. do 2 (split; [done|]).
  destruct Hq as [Hlt|[Hnil|Hnil]]; [done| |]; exfalso.
  - exact (get_best_no_stale Buy b' bb Hwf' Hns' Eb Hnil).
  - exact (get_best_no_stale Sell b' ba Hwf' Hns' Ea Hnil).
Qed.

Lemma match_orders_leaves_quiet_witness :
  ∃ ts b', match_orders (book_of fresh_cross_ops) = Some (ts, b') ∧ uncrossed b'.
Proof.
  destruct (match_orders_leaves_quiet (book_of fresh_cross_ops))
    as (ts & b' & Hm & _ & Hu).
  - exists fresh_cross_ops. vm_compute. reflexivity.
  - exists ts, b'. split; [exact Hm|]. apply Hu.
    apply no_staleb_sound. vm_compute. reflexivity.
Defined.

(** ** The id-map and the ledgers *)

(** What a trading pass does to the id-map: orders that did not trade are
    untouched, and an order that traded stays only with a quantity other
    than zero. *)
Lemma match_iter_orders b t b1 :
  wf b → match_iter b = Some (Continue t b1) →
  (∀ id, id ≠ buy_order_id t → id ≠ sell_order_id t →
         orders b1 !! id = orders b !! id) ∧
  (∀ sd o, orders b1 !! trade_id sd t = Some o → quantity o ≠ 0).
Proof.
  intros Hwf Hi. destruct (match_iter_spec b Hwf) as (r & Hr & Hspec).
  rewrite Hi in Hr. simplify_eq.
  destruct Hspec as (bb & ba & bo & so & _ & _ & _ & Hhb & Hhs & Hbo & Hso
                     & -> & [Hos _ _]).
  set (mq := Z.min (quantity bo) (quantity so)) in *.
  rewrite orders_settled in Hos. cbn [buy_order_id sell_order_id].
  destruct (wf_level_unique _ _ _ _ _ Hwf Hbo (head_elem_of _ _ Hhb)) as [Hsb _].
  destruct (wf_level_unique _ _ _ _ _ Hwf Hso (head_elem_of _ _ Hhs)) as [Hss _].
  assert (Hne : order_id bo ≠ order_id so).
  { intros E. rewrite E in Hbo. simplify_eq. congruence. }
  split.
  - intros id H1 H2. rewrite Hos, !lookup_alter_ne by done.
    rewrite decide_True; [done|]. unfold unfilled. naive_solver.
  - intros [] o; cbn; rewrite Hos; (case_decide as Hu; [|done]).
    + rewrite lookup_alter_ne, lookup_alter_eq, Hbo by done.
      intros [= <-]. cbn. unfold unfilled in Hu. fold mq in Hu. naive_solver lia.
    + rewrite lookup_alter_eq, lookup_alter_ne, Hso by done.
      intros [= <-]. cbn. unfold unfilled in Hu. fold mq in Hu. naive_solver lia.
Qed.

Lemma pass_frame b ts b' id :
  wf b → pass b ts b' → ¬ traded_in id ts → orders b' !! id = orders b !! id.
Proof.
  intros Hwf Hp. induction Hp as [b b' Hi|b t b1 ts b' Hi Hp IH]; intros Hnot.
  - destruct (match_iter_spec b Hwf) as (r & Hr & Hspec).
    rewrite Hi in Hr. simplify_eq. destruct Hspec as (-> & _). done.
  - unfold traded_in in Hnot. rewrite Exists_cons in Hnot.
    destruct (match_iter_orders b t b1 Hwf Hi) as [Hframe _].
    rewrite IH; [|apply (wf_match_iter _ _ Hwf Hi)|tauto].
    apply Hframe; naive_solver.
Qed.

(** After [match_orders], no order that traded rests with quantity zero. *)
Lemma pass_filled b ts b' id o :
  wf b → pass b ts b' → traded_in id ts → orders b' !! id = Some o →
  quantity o ≠ 0.
Proof.
  intros Hwf Hp. induction Hp as [b b' Hi|b t b1 ts b' Hi Hp IH]; intros Hin Ho.
  - by apply Exists_nil in Hin.
  - pose proof (wf_match_iter _ _ Hwf Hi) as Hwf1. cbn in Hwf1.
    destruct (decide (traded_in id ts)) as [Hlater|Hlater]; [by apply IH|].
    rewrite (pass_frame b1 ts b' id Hwf1 Hp Hlater) in Ho.
    destruct (match_iter_orders b t b1 Hwf Hi) as [_ Hq].
    apply Exists_cons in Hin as [[<-|<-]|Hin]; [| |done].
    + by apply (Hq Buy).
    + by apply (Hq Sell).
Qed.

(** C3, as stated, fails for amendments: after buy1 is amended to
    quantity zero it is still in the id-map, with quantity zero, and still
    in the queue of its price. *)
Lemma amended_to_zero_still_rests :
  ∃ b b' o,
    reachable b ∧
    modify_order "buy1" None (Some 0) b = Some (true, b') ∧
    orders b' !! "buy1" = Some o ∧ quantity o = 0 ∧
    level Buy (dec 100 1) b' = ["buy1"].
Proof.
  exists (book_of demo_ops),
    (default empty_book
       (snd <$> modify_order "buy1" None (Some 0) (book_of demo_ops))),
    (mkOrder "buy1" "buy" (dec 100 1) 0 1).
  split; [exists demo_ops; vm_compute; reflexivity|].
  split; [vm_compute; reflexivity|].
  split; [vm_compute; reflexivity|].
  split; vm_compute; reflexivity.
Qed.

(** C3, amended.  On every reachable book an id is in the id-map iff it is
    in a queue of a ledger; a cancellation takes the id out of the id-map
    and out of every queue; after [match_orders] an order that traded is in
    the id-map only with a quantity other than zero; and an amendment of
    the quantity, to zero as to any other value, leaves the order in the
    id-map and in its queue. *)
Theorem id_map_matches_ledger (b : OrderBook) :
  reachable b →
  (∀ id, is_Some (orders b !! id) ↔ ∃ sd p, id ∈ level sd p b) ∧
  (∀ id, is_Some (orders b !! id) →
     ∃ b', cancel_order id b = Some (true, b') ∧
           orders b' !! id = None ∧ ∀ sd p, id ∉ level sd p b') ∧
  (∀ ts b', match_orders b = Some (ts, b') →
     ∀ id o, traded_in id ts → orders b' !! id = Some o → quantity o ≠ 0) ∧
  (∀ id q, is_Some (orders b !! id) →
     ∃ b' o', modify_order id None (Some q) b = Some (true, b') ∧
              orders b' !! id = Some o' ∧ quantity o' = q ∧
              ∀ sd p, level sd p b' = level sd p b).
Proof.
  intros Hr. pose proof (reachable_wf _ Hr) as Hwf.
  split; [|split; [|split]].
  - intros id. split.
    + intros [o Ho]. exists (side_of (side o)), (price o). by apply Hwf.
    + intros (sd & p & Hin). destruct (wf_live _ Hwf _ _ _ Hin) as (o & -> & _).
      done.
  - intros id [o Ho].
    destruct (cancel_order_resting _ _ _ Hwf Ho) as (b' & Hc & Hos & Hlv & _).
    exists b'. split; [done|]. split; [rewrite Hos; apply lookup_delete_eq|].
    intros sd p. rewrite Hlv, list_elem_of_filter. naive_solver.
  - intros ts b' Hm id o. apply (pass_filled b ts b'); [done|].
    by apply match_orders_pass.
  - intros id q [o Ho]. exists (amend_quantity (Some q) id b), (set_quantity q o).
    split; [by apply (modify_order_quantity _ _ _ _ Ho)|]. cbn.
    by rewrite lookup_alter_eq, Ho.
Qed.

Lemma id_map_matches_ledger_witness :
  ∃ b' o', modify_order "buy1" None (Some 0) (book_of demo_ops) = Some (true, b') ∧
           orders b' !! "buy1" = Some o' ∧ quantity o' = 0 ∧
           ∀ sd p, level sd p b' = level sd p (book_of demo_ops).
Proof.
  destruct (id_map_matches_ledger (book_of demo_ops)) as (_ & _ & _ & H).
  - exists demo_ops. vm_compute. reflexivity.
  - apply H.
    assert (E : orders (book_of demo_ops) !! "buy1"
                = Some (mkOrder "buy1" "buy" (dec 100 1) 10 1))
      by (vm_compute; reflexivity).
    rewrite E. eexists. reflexivity.
Defined.

(** ** Price keys *)

(** C4 fails on the code.  After b1 is re-priced from 105 to 95 the buy
    ledger has the key 95 only.  A snapshot then reads the queue of 105
    through the entry that b1 left on the heap, and that read creates the
    key 105 with an empty list; [match_orders] does the same once an ask
    rests below 105. *)
Theorem read_creates_empty_price_key :
  price_levels_buy (book_of repriced_ops) !! dec 105 1 = None ∧
  (∃ snap b',
     get_order_book_snapshot 5 (book_of repriced_ops) = Some (snap, b') ∧
     price_levels_buy b' !! dec 105 1 = Some []) ∧
  (∃ ts b',
     match_orders (add_order 2 "s1" "sell" (dec 100 1) 7 (book_of repriced_ops)).2
       = Some (ts, b') ∧
     price_levels_buy b' !! dec 105 1 = Some []).
Proof.
  split; [vm_compute; reflexivity|]. split.
  - eexists _, (default empty_book
                  (snd <$> get_order_book_snapshot 5 (book_of repriced_ops))).
    split; vm_compute; reflexivity.
  - eexists _, (default empty_book
                  (snd <$> match_orders
                     (add_order 2 "s1" "sell" (dec 100 1) 7
                        (book_of repriced_ops)).2)).
    split; vm_compute; reflexivity.
Qed.

(** The part of C4 that holds: on a reachable book every order of the
    id-map is in the queue of its own side and price, once, and in no
    other queue. *)
Lemma resting_order_in_one_queue b id o :
  reachable b → orders b !! id = Some o →
  id ∈ level (side_of (side o)) (price o) b ∧
  NoDup (level (side_of (side o)) (price o) b) ∧
  ∀ sd p, id ∈ level sd p b → sd = side_of (side o) ∧ p = price o.
Proof.
  intros Hr Ho. pose proof (reachable_wf _ Hr) as Hwf.
  split; [by apply Hwf|]. split; [apply Hwf|].
  intros sd p. by apply wf_level_unique.
Qed.

(** ** What a snapshot reports *)

(** C8, as stated, fails: after b1 is re-priced from 105 to 95 the snapshot
    reports the level 105 with total 0, although no order rests at 105. *)
Lemma snapshot_reports_vacated_level :
  ∃ b snap b',
    reachable b ∧
    get_order_book_snapshot 5 b = Some (snap, b') ∧
    bids snap = [(dec 105 1, 0); (dec 95 1, 10)] ∧
    level Buy (dec 105 1) b = [].
Proof.
  exists (book_of repriced_ops).
  eexists (mkSnapshot [(dec 105 1, 0); (dec 95 1, 10)] []),
    (default empty_book
       (snd <$> get_order_book_snapshot 5 (book_of repriced_ops))).
  split; [exists repriced_ops; vm_compute; reflexivity|].
  repeat split; vm_compute; reflexivity.
Qed.

(** C8, amended.  On every reachable book and for every depth the snapshot
    returns, per side, at most [depth] levels (none for a negative depth)
    with their prices in strictly best-to-worst order, hence distinct.
    Every reported price is the price recorded in a heap entry whose id is
    in the id-map, and comes with the sum of the quantities of the orders
    queued at that price.  The price of every resting order is reported,
    unless [depth] levels are reported that are all strictly better.  When
    no heap entry is stale in price, an order rests at every reported
    price.  The id-map, the queues and the heaps are as before the call. *)
Theorem snapshot_levels (b : OrderBook) (depth : Z) :
  reachable b →
  ∃ snap b',
    get_order_book_snapshot depth b = Some (snap, b') ∧
    same_book b' b ∧
    (Z.of_nat (length (bids snap)) <= Z.max 0 depth) ∧
    (Z.of_nat (length (asks snap)) <= Z.max 0 depth) ∧
    StronglySorted (better Buy) (fst <$> bids snap) ∧
    StronglySorted (better Sell) (fst <$> asks snap) ∧
    (∀ p total, (p, total) ∈ bids snap →
       (∃ e, e ∈ buy_orders b ∧ (- e_key e)%Qc = p ∧
             is_Some (orders b !! e_id e)) ∧
       sum_quantity (orders b) (level Buy p b) = Some total ∧
       (no_stale b → level Buy p b ≠ [])) ∧
    (∀ p total, (p, total) ∈ asks snap →
       (∃ e, e ∈ sell_orders b ∧ e_key e = p ∧
             is_Some (orders b !! e_id e)) ∧
       sum_quantity (orders b) (level Sell p b) = Some total ∧
       (no_stale b → level Sell p b ≠ [])) ∧
    top_of_book Buy depth b (bids snap) ∧
    top_of_book Sell depth b (asks snap).
Proof.
  intros Hr. pose proof (reachable_wf _ Hr) as Hwf.
  destruct (get_order_book_snapshot_spec depth b Hwf)
    as (snap & b' & Hs & Hos & Hlv & Hh & Hnb & Hna & Hokb & Hoka & Hsb & Hsa
        & Htb & Hta).
  exists snap, b'. split; [done|]. split; [done|]. do 4 (split; [done|]).
  rewrite Forall_forall in Hokb, Hoka.
  assert (Hrest : ∀ sd e p, no_stale b → e ∈ heap sd b →
            price_of_key sd (e_key e) = p → is_Some (orders b !! e_id e) →
            level sd p b ≠ []).
  { intros sd e p Hns He <- [o Ho]. destruct (Hns sd e o He Ho) as [Hsd Hk].
    rewrite Hk, price_of_key_heap_key.
    pose proof (wf_rests _ Hwf _ _ Ho) as Hin. rewrite Hsd in Hin.
    intros Hnil. rewrite Hnil in Hin. by apply elem_of_nil in Hin. }
  split; [|split; [|done]].
  - intros p total Hin. destruct (Hokb _ Hin) as (_ & (e & He & Hp & Hl) & Hsum).
    split; [by exists e|]. split; [done|]. intros Hns.
    by apply (Hrest Buy e).
  - intros p total Hin. destruct (Hoka _ Hin) as (_ & (e & He & Hp & Hl) & Hsum).
    split; [by exists e|]. split; [done|]. intros Hns.
    by apply (Hrest Sell e).
Qed.

Lemma snapshot_levels_witness :
  ∃ snap b',
    get_order_book_snapshot 5 (book_of repriced_ops) = Some (snap, b') ∧
    same_book b' (book_of repriced_ops) ∧
    StronglySorted (better Buy) (fst <$> bids snap).
Proof.
  destruct (snapshot_levels (book_of repriced_ops) 5)
    as (snap & b' & Hs & Hsame & _ & _ & Hsorted & _).
  - exists repriced_ops. vm_compute. reflexivity.
  - exists snap, b'. split; [exact Hs|]. split; [exact Hsame|exact Hsorted].
Defined.



(** ** Further properties of the operations *)

(** X1. Adding an order under an id that is not in the id-map and then
    cancelling it gives back the id-map and every queue; what stays is the
    entry that the add pushed on the heap of its side. *)
Theorem add_then_cancel
    (b : OrderBook) (now : Z) (id sd : string) (p : Qc) (q : Z) :
  reachable b → orders b !! id = None →
  ∃ b', cancel_order id (add_order now id sd p q b).2 = Some (true, b') ∧
    orders b' = orders b ∧
    (∀ sd' p', level sd' p' b' = level sd' p' b) ∧
    heap (side_of sd) b'
      = heappush (heap (side_of sd) b)
          (mkEntry (heap_key (side_of sd) p) now id) ∧
    (∀ sd', sd' ≠ side_of sd → heap sd' b' = heap sd' b).
Proof.
  intros Hr Hfresh. pose proof (reachable_wf _ Hr) as Hwf.
  rewrite add_order_fresh by done. cbn [snd].
  set (o := mkOrder id sd p q now).
  assert (Hwf1 : wf (insert_order o b)) by (by apply wf_insert_order).
  assert (Ho : orders (insert_order o b) !! id = Some o).
  { rewrite orders_insert_order. apply lookup_insert_eq. }
  destruct (cancel_order_resting _ _ _ Hwf1 Ho) as (b' & Hc & Hos & Hlv & Hh).
  exists b'. split; [done|]. split; [|split; [|split]].
  - rewrite Hos, orders_insert_order. cbn. by apply delete_insert_id.
  - intros sd' p'. rewrite Hlv, level_insert_order. cbn.
    assert (Hout : id ∉ level sd' p' b).
    { intros Hin. destruct (wf_live _ Hwf _ _ _ Hin) as (o' & Ho' & _). congruence. }
    case_decide.
    + rewrite filter_app, filter_ne_id by done.
      rewrite filter_cons_False by naive_solver. by rewrite filter_nil, app_nil_r.
    + by apply filter_ne_id.
  - rewrite Hh, heap_insert_order. cbn. by rewrite decide_True.
  - intros sd' Hne. rewrite Hh, heap_insert_order. cbn. by rewrite decide_False.
Qed.

Lemma add_then_cancel_witness :
  ∃ b', cancel_order "buy9"
          (add_order 4 "buy9" "buy" (dec 100 1) 3 (book_of demo_ops)).2
        = Some (true, b') ∧
        orders b' = orders (book_of demo_ops).
Proof.
  destruct (add_then_cancel (book_of demo_ops) 4 "buy9" "buy" (dec 100 1) 3)
    as (b' & Hc & Hos & _).
  - exists demo_ops. vm_compute. reflexivity.
  - vm_compute. reflexivity.
  - exists b'. split; [exact Hc|exact Hos].
Defined.

(** The first live entry of a sorted heap has the least key among the live
    entries. *)
Lemma discover_least live h k h' :
  keys_sorted h → discover live h = (Some k, h') →
  ∀ e, e ∈ h → is_Some (live !! e_id e) → (k <= e_key e)%Qc.
Proof.
  unfold keys_sorted. induction h as [|x h IH]; simpl; [done|].
  intros Hs. apply StronglySorted_inv in Hs as [Hs Hx].
  rewrite Forall_fmap, Forall_forall in Hx.
  destruct (live !! e_id x) eqn:E.
  - intros [= <- <-] e [->|He]%elem_of_cons _; [apply Qcle_refl|by apply Hx].
  - intros Hd e [->|He]%elem_of_cons Hlive.
    + rewrite E in Hlive. by destruct Hlive.
    + by apply IH.
Qed.

Lemma Qcopp_le_inv (x y : Qc) : (- x <= - y)%Qc → (y <= x)%Qc.
Proof.
  intros H. apply Qcopp_le_compat in H. by rewrite !Qcopp_involutive in H.
Qed.

(** X2. What [get_best_bid] and [get_best_ask] report on a reachable book.
    A reported price is the price recorded in a heap entry whose id is in
    the id-map, and no resting order of that side has a better price; when
    no heap entry is stale in price, it is the price of a resting order of
    that side.  When nothing is reported, no order rests on that side. *)
Theorem best_price_bounds (b : OrderBook) :
  reachable b →
  match (get_best_bid b).1 with
  | Some bb =>
    (∃ e, e ∈ buy_orders b ∧ (- e_key e)%Qc = bb ∧ is_Some (orders b !! e_id e)) ∧
    (∀ id o, orders b !! id = Some o → side_of (side o) = Buy →
             (price o <= bb)%Qc) ∧
    (no_stale b → ∃ id o, orders b !! id = Some o ∧ side_of (side o) = Buy ∧
                          price o = bb)
  | None => side_empty Buy b
  end ∧
  match (get_best_ask b).1 with
  | Some ba =>
    (∃ e, e ∈ sell_orders b ∧ e_key e = ba ∧ is_Some (orders b !! e_id e)) ∧
    (∀ id o, orders b !! id = Some o → side_of (side o) = Sell →
             (ba <= price o)%Qc) ∧
    (no_stale b → ∃ id o, orders b !! id = Some o ∧ side_of (side o) = Sell ∧
                          price o = ba)
  | None => side_empty Sell b
  end.
Proof.
  intros Hr. pose proof (reachable_wf _ Hr) as Hwf.
  assert (Hgen : ∀ sd,
    match (get_best sd b).1 with
    | Some p =>
      (∃ e, e ∈ heap sd b ∧ price_of_key sd (e_key e) = p ∧
            is_Some (orders b !! e_id e)) ∧
      (∀ id o, orders b !! id = Some o → side_of (side o) = sd →
               (heap_key sd p <= heap_key sd (price o))%Qc) ∧
      (no_stale b → ∃ id o, orders b !! id = Some o ∧ side_of (side o) = sd ∧
                            price o = p)
    | None => side_empty sd b
    end).
  { intros sd. destruct (get_best sd b).1 as [p|] eqn:E.
    2:{ exact (get_best_None_side_empty sd b Hwf E). }
    rewrite get_best_eq in E. cbn [fst] in E.
    destruct (discover (orders b) (heap sd b)) as [[k|] h'] eqn:Ed; [|done].
    cbn in E. simplify_eq.
    destruct (discover_Some _ _ _ _ Ed) as (e & rest & -> & <- & Hlive & Hin).
    split; [by exists e|]. split.
    - intros id o Ho Hsd. rewrite heap_key_price_of_key.
      pose proof (wf_cover _ Hwf _ _ Ho) as Hc. rewrite Hsd in Hc.
      pose proof (discover_least _ _ _ _ (wf_sorted _ Hwf sd) Ed _ Hc) as Hl.
      cbn in Hl. rewrite Hsd in Hl. apply Hl.
      rewrite (wf_id _ Hwf _ _ Ho). by rewrite Ho.
    - intros Hns. destruct Hlive as [o Ho].
      destruct (Hns sd e o Hin Ho) as [Hsd Hk]. exists (e_id e), o.
      do 2 (split; [done|]). by rewrite Hk, price_of_key_heap_key. }
  split.
  - specialize (Hgen Buy). cbn [get_best heap price_of_key heap_key] in Hgen.
    destruct (get_best_bid b).1 as [bb|]; [|done].
    destruct Hgen as (He & Hle & Hat). split; [done|]. split; [|done].
    intros id o Ho Hsd. by apply Qcopp_le_inv, (Hle id).
  - specialize (Hgen Sell). cbn [get_best heap price_of_key heap_key] in Hgen.
    exact Hgen.
Qed.

Lemma best_price_bounds_witness :
  match (get_best_bid (book_of stale_ops)).1 with
  | Some bb =>
    ∀ id o, orders (book_of stale_ops) !! id = Some o →
            side_of (side o) = Buy → (price o <= bb)%Qc
  | None => True
  end.
Proof.
  destruct (best_price_bounds (book_of stale_ops)) as [Hb _].
  - exists stale_ops. vm_compute. reflexivity.
  - destruct (get_best_bid (book_of stale_ops)).1 as [bb|]; [|exact I].
    destruct Hb as (_ & Hle & _). exact Hle.
Defined.

(** X3. Discovery only pops entries whose id is not in the id-map.  On any
    book, [get_best_bid] leaves the id-map, both ledgers and the sell heap
    as they are, the buy heap loses a prefix of entries none of whose ids is
    in the id-map, and a second call returns the same price and changes
    nothing; likewise [get_best_ask] on the sell heap. *)
Theorem discovery_footprint (b : OrderBook) :
  (orders (get_best_bid b).2 = orders b ∧
   price_levels_buy (get_best_bid b).2 = price_levels_buy b ∧
   price_levels_sell (get_best_bid b).2 = price_levels_sell b ∧
   sell_orders (get_best_bid b).2 = sell_orders b ∧
   (∃ popped, buy_orders b = popped ++ buy_orders (get_best_bid b).2 ∧
              Forall (λ e, orders b !! e_id e = None) popped) ∧
   get_best_bid (get_best_bid b).2 = get_best_bid b) ∧
  (orders (get_best_ask b).2 = orders b ∧
   price_levels_buy (get_best_ask b).2 = price_levels_buy b ∧
   price_levels_sell (get_best_ask b).2 = price_levels_sell b ∧
   buy_orders (get_best_ask b).2 = buy_orders b ∧
   (∃ popped, sell_orders b = popped ++ sell_orders (get_best_ask b).2 ∧
              Forall (λ e, orders b !! e_id e = None) popped) ∧
   get_best_ask (get_best_ask b).2 = get_best_ask b).
Proof.
  assert (Hpop : ∀ live h, ∃ popped,
            h = popped ++ (discover live h).2 ∧
            Forall (λ e, live !! e_id e = None) popped).
  { intros live h. induction h as [|e h IH]; simpl.
    - exists []. split; [done|constructor].
    - destruct (live !! e_id e) eqn:E.
      + exists []. split; [done|constructor].
      + destruct IH as (popped & Hh & Hall). exists (e :: popped).
        split; [cbn; by rewrite <- Hh|by constructor]. }
  split.
  - split; [apply (orders_get_best Buy)|].
    split; [apply (levels_get_best Buy Buy)|].
    split; [apply (levels_get_best Buy Sell)|].
    split; [by apply (heap_get_best_ne Buy Sell)|].
    split; [|apply (get_best_idem Buy)].
    pose proof (heap_get_best Buy b) as Hh. cbn [heap get_best] in Hh.
    rewrite Hh. apply Hpop.
  - split; [apply (orders_get_best Sell)|].
    split; [apply (levels_get_best Sell Buy)|].
    split; [apply (levels_get_best Sell Sell)|].
    split; [by apply (heap_get_best_ne Sell Buy)|].
    split; [|apply (get_best_idem Sell)].
    pose proof (heap_get_best Sell b) as Hh. cbn [heap get_best] in Hh.
    rewrite Hh. apply Hpop.
Qed.

(** ** The id-map through a trade *)

Lemma after_trade_lookup mq bid sid bo so (os : gmap string Order) id :
  os !! bid = Some bo → os !! sid = Some so → bid ≠ sid →
  after_trade mq bid sid os !! id =
  if decide (id = bid)
  then (if decide (quantity bo - mq = 0) then None
        else Some (sub_quantity mq bo))
  else if decide (id = sid)
  then (if decide (quantity so - mq = 0) then None
        else Some (sub_quantity mq so))
  else os !! id.
Proof.
  intros Hbo Hso Hne. unfold after_trade.
  set (os2 := alter (sub_quantity mq) sid (alter (sub_quantity mq) bid os)).
  assert (H2b : os2 !! bid = Some (sub_quantity mq bo)).
  { unfold os2. rewrite lookup_alter_ne by done. by rewrite lookup_alter_eq, Hbo. }
  assert (H2s : os2 !! sid = Some (sub_quantity mq so)).
  { unfold os2. rewrite lookup_alter_eq, lookup_alter_ne by done. by rewrite Hso. }
  assert (H2o : id ≠ bid → id ≠ sid → os2 !! id = os !! id).
  { intros H1 H2. unfold os2. by rewrite !lookup_alter_ne. }
  assert (E3 : drop_filled bid os2 =
               if decide (quantity bo - mq = 0) then delete bid os2 else os2).
  { unfold drop_filled. by rewrite H2b. }
  rewrite E3. clear E3.
  destruct (decide (quantity bo - mq = 0)) as [Hb|Hb].
  - unfold drop_filled. rewrite lookup_delete_ne, H2s by done. cbn.
    destruct (decide (quantity so - mq = 0)) as [Hs|Hs].
    + destruct (decide (id = bid)) as [->|H1].
      { by rewrite lookup_delete_ne, lookup_delete_eq. }
      destruct (decide (id = sid)) as [->|H2]; [apply lookup_delete_eq|].
      rewrite !lookup_delete_ne by done. by apply H2o.
    + destruct (decide (id = bid)) as [->|H1]; [apply lookup_delete_eq|].
      rewrite lookup_delete_ne by done.
      destruct (decide (id = sid)) as [->|H2]; [done|]. by apply H2o.
  - unfold drop_filled. rewrite H2s. cbn.
    destruct (decide (quantity so - mq = 0)) as [Hs|Hs].
    + destruct (decide (id = bid)) as [->|H1].
      { by rewrite lookup_delete_ne. }
      destruct (decide (id = sid)) as [->|H2]; [apply lookup_delete_eq|].
      rewrite lookup_delete_ne by done. by apply H2o.
    + destruct (decide (id = bid)) as [->|H1]; [done|].
      destruct (decide (id = sid)) as [->|H2]; [done|]. by apply H2o.
Qed.

(** One trading pass: who trades, at what price, how much, and the id-map
    it leaves. *)
Lemma match_iter_effect b t b1 :
  wf b → match_iter b = Some (Continue t b1) →
  ∃ bo so,
    orders b !! buy_order_id t = Some bo ∧
    orders b !! sell_order_id t = Some so ∧
    side_of (side bo) = Buy ∧ side_of (side so) = Sell ∧
    buy_order_id t ≠ sell_order_id t ∧
    t_price t = price so ∧ (price so <= price bo)%Qc ∧
    t_quantity t = Z.min (quantity bo) (quantity so) ∧
    orders b1
      = after_trade (t_quantity t) (buy_order_id t) (sell_order_id t) (orders b).
Proof.
  intros Hwf Hi. destruct (match_iter_spec b Hwf) as (r & Hr & Hspec).
  rewrite Hi in Hr. simplify_eq.
  destruct Hspec as (bb & ba & bo & so & _ & _ & Hnlt & Hhb & Hhs & Hbo & Hso
                     & -> & [Hos _ _]).
  cbn [buy_order_id sell_order_id t_price t_quantity].
  set (mq := Z.min (quantity bo) (quantity so)) in *.
  rewrite orders_settled in Hos.
  destruct (wf_level_unique _ _ _ _ _ Hwf Hbo (head_elem_of _ _ Hhb)) as [Hsb Hpb].
  destruct (wf_level_unique _ _ _ _ _ Hwf Hso (head_elem_of _ _ Hhs)) as [Hss Hps].
  assert (Hne : order_id bo ≠ order_id so).
  { intros E. rewrite E in Hbo. simplify_eq. congruence. }
  exists bo, so. do 5 (split; [done|]). split; [done|].
  split; [rewrite <- Hpb, <- Hps; by apply Qcnot_lt_le|]. split; [done|].
  apply map_eq. intros id.
  rewrite Hos, (after_trade_lookup mq _ _ bo so) by done.
  unfold unfilled. fold mq.
  destruct (decide (id = order_id bo)) as [->|H1].
  - rewrite lookup_alter_ne, lookup_alter_eq, Hbo by done. cbn.
    repeat case_decide; try done; exfalso; naive_solver lia.
  - destruct (decide (id = order_id so)) as [->|H2].
    + rewrite lookup_alter_eq, lookup_alter_ne, Hso by done. cbn.
      repeat case_decide; try done; exfalso; naive_solver lia.
    + rewrite !lookup_alter_ne by done. rewrite decide_True; [done|]. naive_solver.
Qed.

Lemma match_iter_break_orders b b' :
  wf b → match_iter b = Some (Break b') → orders b' = orders b.
Proof.
  intros Hwf Hi. destruct (match_iter_spec b Hwf) as (r & Hr & Hspec).
  rewrite Hi in Hr. simplify_eq. by destruct Hspec as (-> & _).
Qed.

(** ** Quantities *)

Lemma total_quantity_delete sd (os : gmap string Order) i x :
  os !! i = Some x →
  total_quantity sd os = side_quantity sd x + total_quantity sd (delete i os).
Proof.
  intros Hi. unfold total_quantity.
  apply (map_fold_delete_L (λ _ o acc, side_quantity sd o + acc)); [|done].
  intros. lia.
Qed.

Lemma total_quantity_alter sd f (os : gmap string Order) i x :
  os !! i = Some x →
  total_quantity sd (alter f i os)
  = total_quantity sd os - side_quantity sd x + side_quantity sd (f x).
Proof.
  intros Hi.
  rewrite (total_quantity_delete sd (alter f i os) i (f x))
    by (by rewrite lookup_alter_eq, Hi).
  rewrite delete_alter_eq, (total_quantity_delete sd os i x) by done. lia.
Qed.

Lemma total_quantity_drop_filled sd id (os : gmap string Order) :
  total_quantity sd (drop_filled id os) = total_quantity sd os.
Proof.
  unfold drop_filled. destruct (os !! id) as [o|] eqn:E; [|done].
  case_decide as Hz; [|done].
  rewrite (total_quantity_delete sd os id o E). unfold side_quantity.
  case_decide; lia.
Qed.

Lemma total_quantity_after_trade sd mq bid sid bo so (os : gmap string Order) :
  os !! bid = Some bo → os !! sid = Some so → bid ≠ sid →
  side_of (side bo) = Buy → side_of (side so) = Sell →
  total_quantity sd (after_trade mq bid sid os) = total_quantity sd os - mq.
Proof.
  intros Hbo Hso Hne Hsb Hss. unfold after_trade.
  rewrite !total_quantity_drop_filled.
  rewrite (total_quantity_alter sd _ _ sid so)
    by (by rewrite lookup_alter_ne).
  rewrite (total_quantity_alter sd _ _ bid bo) by done.
  unfold side_quantity. cbn. rewrite Hsb, Hss.
  destruct sd; repeat case_decide; try done; lia.
Qed.

Lemma pass_total_quantity sd b ts b' :
  wf b → pass b ts b' →
  total_quantity sd (orders b')
  = total_quantity sd (orders b) - traded_quantity ts.
Proof.
  intros Hwf Hp. induction Hp as [b b' Hi|b t b1 ts b' Hi Hp IH].
  - rewrite (match_iter_break_orders _ _ Hwf Hi).
    change (traded_quantity []) with 0. lia.
  - rewrite IH by apply (wf_match_iter _ _ Hwf Hi).
    destruct (match_iter_effect b t b1 Hwf Hi)
      as (bo & so & Hbo & Hso & Hsb & Hss & Hne & _ & _ & _ & ->).
    rewrite (total_quantity_after_trade sd _ _ _ bo so) by done.
    change (traded_quantity (t :: ts)) with (t_quantity t + traded_quantity ts).
    lia.
Qed.

(** X4. Quantity is conserved by matching: a call of [match_orders] lowers
    the total resting quantity of the buy side, and that of the sell side,
    by exactly the sum of the quantities of the trades it returns. *)
Theorem match_conserves_quantity (b : OrderBook) (ts : list Trade) (b' : OrderBook) :
  reachable b → match_orders b = Some (ts, b') →
  total_quantity Buy (orders b')
    = total_quantity Buy (orders b) - traded_quantity ts ∧
  total_quantity Sell (orders b')
    = total_quantity Sell (orders b) - traded_quantity ts.
Proof.
  intros Hr Hm. pose proof (reachable_wf _ Hr) as Hwf.
  pose proof (match_orders_pass _ _ _ Hm) as Hp.
  split; by apply pass_total_quantity.
Qed.

Lemma match_conserves_quantity_witness :
  total_quantity Buy (orders fifo_after)
    = total_quantity Buy (orders fifo_book) - traded_quantity fifo_trades ∧
  total_quantity Sell (orders fifo_after)
    = total_quantity Sell (orders fifo_book) - traded_quantity fifo_trades.
Proof.
  apply (match_conserves_quantity fifo_book fifo_trades fifo_after).
  - exists [Add 1 "a1" "buy" (dec 100 1) 5; Add 2 "b2" "buy" (dec 100 1) 5;
            Add 3 "s1" "sell" (dec 100 1) 8].
    vm_compute. reflexivity.
  - vm_compute. reflexivity.
Defined.

(** An order that is in the id-map after a trading pass was there before,
    on the same side, at the same price. *)
Lemma match_iter_back b t b1 id o1 :
  wf b → match_iter b = Some (Continue t b1) → orders b1 !! id = Some o1 →
  ∃ o, orders b !! id = Some o ∧ same_place o o1.
Proof.
  intros Hwf Hi. destruct (match_iter_effect b t b1 Hwf Hi)
    as (bo & so & Hbo & Hso & _ & _ & Hne & _ & _ & _ & ->).
  rewrite (after_trade_lookup _ _ _ bo so) by done.
  destruct (decide (id = buy_order_id t)) as [->|H1].
  - case_decide; [done|]. intros [= <-]. by exists bo.
  - destruct (decide (id = sell_order_id t)) as [->|H2].
    + case_decide; [done|]. intros [= <-]. by exists so.
    + intros Ho. by exists o1.
Qed.

Lemma pass_back b ts b' id o' :
  wf b → pass b ts b' → orders b' !! id = Some o' →
  ∃ o, orders b !! id = Some o ∧ same_place o o'.
Proof.
  intros Hwf Hp. revert o'. induction Hp as [b b' Hi|b t b1 ts b' Hi Hp IH];
    intros o' Ho'.
  - rewrite (match_iter_break_orders _ _ Hwf Hi) in Ho'. by exists o'.
  - destruct (IH (wf_match_iter _ _ Hwf Hi) _ Ho') as (o1 & Ho1 & H1).
    destruct (match_iter_back _ _ _ _ _ Hwf Hi Ho1) as (o & Ho & H2).
    exists o. split; [done|]. unfold same_place in *. naive_solver congruence.
Qed.

(** X5. Every trade of a call of [match_orders] is between an order that
    rested as a buy order and a different order that rested as a sell order
    when the call started, at the price of the sell order, and that price is
    not above the price of the buy order. *)
Theorem trades_respect_limits (b : OrderBook) (ts : list Trade) (b' : OrderBook) :
  reachable b → match_orders b = Some (ts, b') →
  ∀ t, t ∈ ts →
    ∃ bo so,
      orders b !! buy_order_id t = Some bo ∧ side_of (side bo) = Buy ∧
      orders b !! sell_order_id t = Some so ∧ side_of (side so) = Sell ∧
      buy_order_id t ≠ sell_order_id t ∧
      t_price t = price so ∧ (price so <= price bo)%Qc.
Proof.
  intros Hr Hm. pose proof (reachable_wf _ Hr) as Hwf.
  pose proof (match_orders_pass _ _ _ Hm) as Hp. clear Hm Hr.
  induction Hp as [b b' Hi|b t1 b1 ts b' Hi Hp IH]; intros t Hin.
  - by apply elem_of_nil in Hin.
  - apply elem_of_cons in Hin as [->|Hin].
    + destruct (match_iter_effect b t1 b1 Hwf Hi)
        as (bo & so & Hbo & Hso & Hsb & Hss & Hne & Hp1 & Hle & _).
      by exists bo, so.
    + destruct (IH (wf_match_iter _ _ Hwf Hi) t Hin)
        as (bo1 & so1 & Hbo1 & Hsb & Hso1 & Hss & Hne & Hp1 & Hle).
      destruct (match_iter_back _ _ _ _ _ Hwf Hi Hbo1)
        as (bo & Hbo & _ & Hs1 & Hp2 & _).
      destruct (match_iter_back _ _ _ _ _ Hwf Hi Hso1)
        as (so & Hso & _ & Hs2 & Hp3 & _).
      exists bo, so. rewrite <- Hs1, <- Hs2, <- Hp2, <- Hp3. done.
Qed.

Lemma trades_respect_limits_witness :
  ∃ bo so,
    orders fifo_book !! "b2" = Some bo ∧ side_of (side bo) = Buy ∧
    orders fifo_book !! "s1" = Some so ∧ side_of (side so) = Sell ∧
    (price so <= price bo)%Qc.
Proof.
  destruct (trades_respect_limits fifo_book fifo_trades fifo_after)
    with (t := mkTrade "b2" "s1" (dec 100 1) 3)
    as (bo & so & Hbo & Hsb & Hso & Hss & _ & _ & Hle).
  - exists [Add 1 "a1" "buy" (dec 100 1) 5; Add 2 "b2" "buy" (dec 100 1) 5;
            Add 3 "s1" "sell" (dec 100 1) 8].
    vm_compute. reflexivity.
  - vm_compute. reflexivity.
  - unfold fifo_trades. apply list_elem_of_further, list_elem_of_here.
  - exists bo, so. repeat split; assumption.
Defined.

Lemma match_iter_positive b t b1 :
  wf b → all_positive b → match_iter b = Some (Continue t b1) →
  0 < t_quantity t ∧ all_positive b1.
Proof.
  intros Hwf Hpos Hi. destruct (match_iter_effect b t b1 Hwf Hi)
    as (bo & so & Hbo & Hso & _ & _ & Hne & _ & _ & Hq & Hos).
  pose proof (Hpos _ _ Hbo). pose proof (Hpos _ _ Hso).
  split; [lia|]. intros id o1. rewrite Hos.
  rewrite (after_trade_lookup _ _ _ bo so) by done.
  repeat case_decide; try done.
  - intros [= <-]. cbn. lia.
  - intros [= <-]. cbn. lia.
  - apply Hpos.
Qed.

(** X6. Matching keeps quantities positive: when every resting order has a
    positive quantity, every trade of a call of [match_orders] has a
    positive quantity and so has every order that rests afterwards. *)
Theorem match_keeps_quantities_positive
    (b : OrderBook) (ts : list Trade) (b' : OrderBook) :
  reachable b → all_positive b → match_orders b = Some (ts, b') →
  Forall (λ t, 0 < t_quantity t) ts ∧ all_positive b'.
Proof.
  intros Hr Hpos Hm. pose proof (reachable_wf _ Hr) as Hwf.
  pose proof (match_orders_pass _ _ _ Hm) as Hp. clear Hm Hr.
  induction Hp as [b b' Hi|b t b1 ts b' Hi Hp IH].
  - split; [constructor|]. intros id o.
    rewrite (match_iter_break_orders _ _ Hwf Hi). apply Hpos.
  - destruct (match_iter_positive _ _ _ Hwf Hpos Hi) as [Hq Hpos1].
    destruct (IH Hpos1 (wf_match_iter _ _ Hwf Hi)) as [Hall Hpos'].
    split; [by constructor|done].
Qed.

Lemma match_keeps_quantities_positive_witness :
  Forall (λ t, 0 < t_quantity t) fifo_trades ∧ all_positive fifo_after.
Proof.
  apply (match_keeps_quantities_positive fifo_book fifo_trades fifo_after).
  - exists [Add 1 "a1" "buy" (dec 100 1) 5; Add 2 "b2" "buy" (dec 100 1) 5;
            Add 3 "s1" "sell" (dec 100 1) 8].
    vm_compute. reflexivity.
  - refine (bool_decide_unpack
              (map_Forall (λ _ o, 0 < quantity o) (orders fifo_book)) _).
    vm_compute. exact I.
  - vm_compute. reflexivity.
Defined.

Lemma match_iter_size b t b1 :
  wf b → match_iter b = Some (Continue t b1) →
  (size (orders b1) < size (orders b))%nat.
Proof.
  intros Hwf Hi. destruct (match_iter_spec b Hwf) as (r & Hr & Hspec).
  rewrite Hi in Hr. simplify_eq.
  destruct Hspec as (bb & ba & bo & so & _ & _ & _ & _ & _ & Hbo & Hso & _ & Htr).
  rewrite <- orders_settled in Hbo, Hso.
  pose proof (traded_size _ _ _ _ Hbo Hso Htr) as Hlt.
  by rewrite orders_settled in Hlt.
Qed.

(** X7. Every trade retires an order: a call of [match_orders] returns at
    most as many trades as orders leave the id-map during the call. *)
Theorem trades_bounded_by_retired
    (b : OrderBook) (ts : list Trade) (b' : OrderBook) :
  reachable b → match_orders b = Some (ts, b') →
  (length ts + size (orders b') <= size (orders b))%nat.
Proof.
  intros Hr Hm. pose proof (reachable_wf _ Hr) as Hwf.
  pose proof (match_orders_pass _ _ _ Hm) as Hp. clear Hm Hr.
  induction Hp as [b b' Hi|b t b1 ts b' Hi Hp IH].
  - rewrite (match_iter_break_orders _ _ Hwf Hi). cbn. lia.
  - specialize (IH (wf_match_iter _ _ Hwf Hi)).
    pose proof (match_iter_size _ _ _ Hwf Hi). cbn [length]. lia.
Qed.

Lemma trades_bounded_by_retired_witness :
  (length fifo_trades + size (orders fifo_after) <= size (orders fifo_book))%nat.
Proof.
  apply (trades_bounded_by_retired fifo_book fifo_trades fifo_after).
  - exists [Add 1 "a1" "buy" (dec 100 1) 5; Add 2 "b2" "buy" (dec 100 1) 5;
            Add 3 "s1" "sell" (dec 100 1) 8].
    vm_compute. reflexivity.
  - vm_compute. reflexivity.
Defined.

(** X8. Matching touches only what it trades.  After a call of
    [match_orders] an order that is in no trade is in the id-map exactly as
    before; an order that left the id-map is in a trade; every order still
    in the id-map has its side, its price and its timestamp; and every
    queue is what is left of it, in the same order. *)
Theorem match_frame (b : OrderBook) (ts : list Trade) (b' : OrderBook) :
  reachable b → match_orders b = Some (ts, b') →
  (∀ id, ¬ traded_in id ts → orders b' !! id = orders b !! id) ∧
  (∀ id, is_Some (orders b !! id) → orders b' !! id = None → traded_in id ts) ∧
  (∀ id o', orders b' !! id = Some o' →
     ∃ o, orders b !! id = Some o ∧ same_place o o') ∧
  (∀ sd p, level sd p b'
           = filter (λ id, is_Some (orders b' !! id)) (level sd p b)).
Proof.
  intros Hr Hm. pose proof (reachable_wf _ Hr) as Hwf.
  pose proof (match_orders_pass _ _ _ Hm) as Hp.
  split; [|split; [|split]].
  - intros id. by apply (pass_frame b ts b').
  - intros id [o Ho] Hnone. destruct (decide (traded_in id ts)) as [|Hn]; [done|].
    rewrite (pass_frame _ _ _ _ Hwf Hp Hn) in Hnone. congruence.
  - intros id o'. by apply (pass_back b ts b').
  - apply (shrinks_pass _ _ _ Hwf Hp).
Qed.

Lemma match_frame_witness :
  ∀ sd p, level sd p fifo_after
          = filter (λ id, is_Some (orders fifo_after !! id)) (level sd p fifo_book).
Proof.
  destruct (match_frame fifo_book fifo_trades fifo_after) as (_ & _ & _ & H).
  - exists [Add 1 "a1" "buy" (dec 100 1) 5; Add 2 "b2" "buy" (dec 100 1) 5;
            Add 3 "s1" "sell" (dec 100 1) 8].
    vm_compute. reflexivity.
  - vm_compute. reflexivity.
  - exact H.
Defined.

(** ** When a pass trades and when it does not *)

(** On a quiet book the first pass of the loop breaks at once. *)
Lemma quiet_break b :
  wf b → quiet b →
  ∃ b1, match_iter b = Some (Break b1) ∧ orders b1 = orders b ∧
        (∀ sd p, level sd p b1 = level sd p b) ∧
        (∀ sd, heap sd b1 = heap sd (settled b)).
Proof.
  intros Hwf Hq. destruct (match_iter_spec b Hwf) as (r & Hr & Hspec).
  destruct r as [b1|t b1].
  - destruct Hspec as (Hos & Hlv & Hh & _). by exists b1.
  - exfalso. destruct Hspec as (bb & ba & bo & so & Hb & Ha & Hnlt & Hhb & Hhs & _).
    unfold quiet in Hq. rewrite Hb, Ha in Hq.
    destruct Hq as [Hlt|[Hnil|Hnil]]; [done| |].
    + by rewrite Hnil in Hhb.
    + by rewrite Hnil in Hhs.
Qed.

Lemma quiet_match_orders b :
  wf b → quiet b →
  ∃ b1, match_orders b = Some ([], b1) ∧ orders b1 = orders b ∧
        (∀ sd p, level sd p b1 = level sd p b) ∧
        (∀ sd, heap sd b1 = heap sd (settled b)).
Proof.
  intros Hwf Hq. destruct (quiet_break b Hwf Hq) as (b1 & Hi & H).
  exists b1. split; [|done]. unfold match_orders. cbn [match_loop]. by rewrite Hi.
Qed.

(** The heaps that a call of [match_orders] leaves have a live entry on
    top, if any. *)
Lemma pass_settled b ts b' sd :
  wf b → pass b ts b' → (discover (orders b') (heap sd b')).2 = heap sd b'.
Proof.
  intros Hwf Hp. induction Hp as [b b' Hi|b t b1 ts b' Hi Hp IH].
  - destruct (match_iter_spec b Hwf) as (r & Hr & Hspec).
    rewrite Hi in Hr. simplify_eq. destruct Hspec as (Hos & _ & Hh & _).
    rewrite Hos, Hh, heap_settled. by rewrite discover_idem.
  - apply IH. apply (wf_match_iter _ _ Hwf Hi).
Qed.

(** X9. A second call of [match_orders] right after the first finds
    nothing to do: it returns no trade and leaves the id-map, the queues
    and the heaps as the first call left them. *)
Theorem match_twice (b : OrderBook) (ts : list Trade) (b' : OrderBook) :
  reachable b → match_orders b = Some (ts, b') →
  ∃ b'', match_orders b' = Some ([], b'') ∧ same_book b'' b'.
Proof.
  intros Hr Hm. pose proof (reachable_wf _ Hr) as Hwf.
  pose proof (match_orders_pass _ _ _ Hm) as Hp.
  destruct (quiet_match_orders b' (wf_pass _ _ _ Hwf Hp) (quiet_pass _ _ _ Hwf Hp))
    as (b'' & Hm' & Hos & Hlv & Hh).
  exists b''. split; [done|]. split; [done|]. split; [done|].
  intros sd. rewrite Hh, heap_settled. by apply (pass_settled b ts b').
Qed.

Lemma match_twice_witness :
  ∃ b'', match_orders fifo_after = Some ([], b'') ∧ same_book b'' fifo_after.
Proof.
  apply (match_twice fifo_book fifo_trades fifo_after).
  - exists [Add 1 "a1" "buy" (dec 100 1) 5; Add 2 "b2" "buy" (dec 100 1) 5;
            Add 3 "s1" "sell" (dec 100 1) 8].
    vm_compute. reflexivity.
  - vm_compute. reflexivity.
Defined.

Lemma side_empty_quiet sd b : wf b → side_empty sd b → quiet b.
Proof.
  intros Hwf He. unfold quiet.
  destruct (get_best_bid b).1 as [bb|]; [|done].
  destruct (get_best_ask b).1 as [ba|]; [|done].
  assert (Hnil : ∀ p, level sd p b = []).
  { intros p. destruct (level sd p b) as [|x l] eqn:E; [done|]. exfalso.
    destruct (wf_live _ Hwf sd p x) as (o & Ho & Hs & _); [rewrite E; set_solver|].
    by apply (He x o). }
  destruct sd; [right; left|right; right]; apply Hnil.
Qed.

(** X10. With no order resting on one of the sides, [match_orders] returns
    no trade and leaves the id-map and every queue as they are, whatever
    entries are left on the heaps. *)
Theorem no_trade_without_counterparty (b : OrderBook) :
  reachable b → side_empty Buy b ∨ side_empty Sell b →
  ∃ b', match_orders b = Some ([], b') ∧ orders b' = orders b ∧
        ∀ sd p, level sd p b' = level sd p b.
Proof.
  intros Hr He. pose proof (reachable_wf _ Hr) as Hwf.
  assert (Hq : quiet b) by (destruct He; by eapply side_empty_quiet).
  destruct (quiet_match_orders b Hwf Hq) as (b' & Hm & Hos & Hlv & _).
  by exists b'.
Qed.

(** A bid that was cancelled has left its entry on the buy heap, and an ask
    rests. *)
Lemma no_trade_without_counterparty_witness :
  ∃ b', match_orders
          (book_of [Add 1 "b1" "buy" (dec 105 1) 10; Cancel "b1";
                    Add 2 "s1" "sell" (dec 100 1) 7])
        = Some ([], b').
Proof.
  destruct (no_trade_without_counterparty
              (book_of [Add 1 "b1" "buy" (dec 105 1) 10; Cancel "b1";
                        Add 2 "s1" "sell" (dec 100 1) 7]))
    as (b' & Hm & _).
  - exists [Add 1 "b1" "buy" (dec 105 1) 10; Cancel "b1";
            Add 2 "s1" "sell" (dec 100 1) 7].
    vm_compute. reflexivity.
  - left. intros id o.
    assert (E : orders (book_of [Add 1 "b1" "buy" (dec 105 1) 10; Cancel "b1";
                                 Add 2 "s1" "sell" (dec 100 1) 7])
                = <["s1" := mkOrder "s1" "sell" (dec 100 1) 7 2]> ∅)
      by (vm_compute; reflexivity).
    rewrite E. intros [[_ <-]|[_ Hnone]]%lookup_insert_Some.
    + discriminate.
    + by rewrite lookup_empty in Hnone.
  - exists b'. exact Hm.
Defined.

(** X11. Without stale prices, matching makes progress: when the best bid is
    not below the best ask, [match_orders] returns at least one trade; its
    first trade is between the front orders of the queues at the best bid
    and at the best ask, at the best ask. *)
Theorem crossed_book_trades (b : OrderBook) (bb ba : Qc) :
  reachable b → no_stale b →
  (get_best_bid b).1 = Some bb → (get_best_ask b).1 = Some ba →
  (ba <= bb)%Qc →
  ∃ t ts b',
    match_orders b = Some (t :: ts, b') ∧
    head (level Buy bb b) = Some (buy_order_id t) ∧
    head (level Sell ba b) = Some (sell_order_id t) ∧
    t_price t = ba.
Proof.
  intros Hr Hns Hb Ha Hle. pose proof (reachable_wf _ Hr) as Hwf.
  destruct (match_orders_returns b Hwf) as (ts & b' & Hm & Hp).
  destruct (match_iter_spec b Hwf) as (r & Hi & Hspec).
  inversion Hp as [b0 b0' Hi0|b0 t b1 ts' b0' Hi0 Hp']; simplify_eq.
  - exfalso. destruct Hspec as (_ & _ & _ & Hq). unfold quiet in Hq.
    rewrite Hb, Ha in Hq. destruct Hq as [Hlt|[Hnil|Hnil]].
    + by apply (Qcle_not_lt _ _ Hle).
    + exact (get_best_no_stale Buy b bb Hwf Hns Hb Hnil).
    + exact (get_best_no_stale Sell b ba Hwf Hns Ha Hnil).
  - destruct Hspec as (bb' & ba' & bo & so & Hb' & Ha' & _ & Hhb & Hhs & _ & Hso
                       & -> & _).
    rewrite Hb in Hb'. rewrite Ha in Ha'. simplify_eq.
    exists (mkTrade (order_id bo) (order_id so) (price so)
              (Z.min (quantity bo) (quantity so))), ts', b'.
    do 3 (split; [done|]). cbn.
    by destruct (wf_level_unique _ _ _ _ _ Hwf Hso (head_elem_of _ _ Hhs)) as [_ ->].
Qed.

Lemma crossed_book_trades_witness :
  ∃ t ts b',
    match_orders (book_of fresh_cross_ops) = Some (t :: ts, b') ∧
    t_price t = dec 102 1.
Proof.
  destruct (crossed_book_trades (book_of fresh_cross_ops) (dec 103 1) (dec 102 1))
    as (t & ts & b' & Hm & _ & _ & Hp).
  - exists fresh_cross_ops. vm_compute. reflexivity.
  - apply no_staleb_sound. vm_compute. reflexivity.
  - vm_compute. reflexivity.
  - vm_compute. reflexivity.
  - vm_compute. discriminate.
  - exists t, ts, b'. split; [exact Hm|exact Hp].
Defined.

(** ** Books without stale prices *)

Lemma no_stale_uncrossed b : wf b → no_stale b → quiet b → uncrossed b.
Proof.
  intros Hwf Hns Hq. unfold quiet in Hq. unfold uncrossed.
  destruct (get_best_bid b).1 as [bb|] eqn:Eb.
  2:{ right. left. exact (get_best_None_side_empty Buy b Hwf Eb). }
  destruct (get_best_ask b).1 as [ba|] eqn:Ea.
  2:{ right. right. exact (get_best_None_side_empty Sell b Hwf Ea). }
  left. exists bb, ba. do 2 (split; [done|]).
  destruct Hq as [Hlt|[Hnil|Hnil]]; [done| |]; exfalso.
  - exact (get_best_no_stale Buy b bb Hwf Hns Eb Hnil).
  - exact (get_best_no_stale Sell b ba Hwf Hns Ea Hnil).
Qed.

Lemma no_stale_insert_order o b :
  no_stale b → (∀ sd e, e ∈ heap sd b → e_id e ≠ order_id o) →
  no_stale (insert_order o b).
Proof.
  intros Hns Hnew sd e o'. rewrite heap_insert_order, orders_insert_order.
  case_decide as Hsd.
  - intros [->|He]%elem_of_heappush.
    + cbn. rewrite lookup_insert_eq. intros [= <-]. by subst.
    + rewrite lookup_insert_ne by (symmetry; by eapply Hnew). by apply Hns.
  - intros He. rewrite lookup_insert_ne by (symmetry; by eapply Hnew).
    by apply Hns.
Qed.

Lemma pass_heap_subset b ts b' sd e :
  wf b → pass b ts b' → e ∈ heap sd b' → e ∈ heap sd b.
Proof.
  intros Hwf Hp. induction Hp as [b b' Hi|b t b1 ts b' Hi Hp IH]; intros He.
  - destruct (match_iter_spec b Hwf) as (r & Hr & Hspec).
    rewrite Hi in Hr. simplify_eq. destruct Hspec as (_ & _ & Hh & _).
    rewrite Hh in He. by apply elem_of_heap_settled.
  - specialize (IH (wf_match_iter _ _ Hwf Hi) He).
    destruct (match_iter_spec b Hwf) as (r & Hr & Hspec).
    rewrite Hi in Hr. simplify_eq.
    destruct Hspec as (bb & ba & bo & so & _ & _ & _ & _ & _ & _ & _ & _
                       & [_ _ Hh]).
    rewrite Hh in IH. by apply elem_of_heap_settled.
Qed.

Lemma elem_of_heap_get_best sd sd' b e :
  e ∈ heap sd' (get_best sd b).2 → e ∈ heap sd' b.
Proof.
  rewrite get_best_eq. cbn [snd]. rewrite heap_set_heap. case_decide; [|done].
  subst. intros He. destruct (discover_suffix (orders b) (heap sd b)) as [k Hk].
  rewrite Hk. set_solver.
Qed.

(** No call but [add_order] and a price amendment pushes an entry. *)
Lemma step_heap_ids o b b' sd e :
  wf b → no_reprice o → step o b = Some b' → e ∈ heap sd b' →
  e ∈ heap sd b ∨ e_id e ∈ added_id o.
Proof.
  intros Hwf Hnr. destruct o; cbn -[match_orders] in *.
  - intros [= <-]. destruct (orders b !! id) eqn:E.
    + rewrite add_order_taken by done. by left.
    + rewrite add_order_fresh by done. cbn. rewrite heap_insert_order.
      case_decide; [|by left]. intros [->|He]%elem_of_heappush; [|by left].
      right. cbn. set_solver.
  - destruct (orders b !! id) as [o|] eqn:Ho.
    + destruct (cancel_order_resting _ _ _ Hwf Ho) as (b2 & -> & _ & _ & Hh).
      intros [= <-]. rewrite Hh. by left.
    + rewrite cancel_order_unknown by done. intros [= <-]. by left.
  - destruct new_price; [done|]. destruct (orders b !! id) as [o|] eqn:Ho.
    + rewrite (modify_order_quantity _ _ _ _ Ho). intros [= <-].
      rewrite heap_amend_quantity. by left.
    + rewrite modify_order_unknown by done. intros [= <-]. by left.
  - intros [= <-] He. left. by apply (elem_of_heap_get_best Buy).
  - intros [= <-] He. left. by apply (elem_of_heap_get_best Sell).
  - intros [= <-]. rewrite get_spread_eq. cbn [snd]. fold (settled b).
    intros He. left. by apply elem_of_heap_settled.
  - destruct (get_order_book_snapshot_spec depth b Hwf)
      as (snap & b2 & -> & _ & _ & Hh & _). intros [= <-]. rewrite Hh. by left.
  - destruct (match_orders b) as [[ts b1]|] eqn:E; [|done]. intros [= <-] He.
    left. eapply pass_heap_subset; [done| |done]. by apply match_orders_pass.
Qed.

Lemma no_stale_step o b b' :
  wf b → no_stale b → no_reprice o →
  (∀ sd e, e ∈ heap sd b → e_id e ∉ added_id o) →
  step o b = Some b' → no_stale b'.
Proof.
  intros Hwf Hns Hnr Hnew. destruct o; cbn -[match_orders] in *.
  - intros [= <-]. destruct (orders b !! id) eqn:E.
    + by rewrite add_order_taken.
    + rewrite add_order_fresh by done. cbn. apply no_stale_insert_order; [done|].
      intros sd' e He. cbn. specialize (Hnew sd' e He). set_solver.
  - destruct (orders b !! id) as [o|] eqn:Ho.
    + destruct (cancel_order_resting _ _ _ Hwf Ho) as (b2 & -> & Hos & _ & Hh).
      intros [= <-]. apply (no_stale_shrink b); [done| |].
      * intros sd e. by rewrite Hh.
      * intros id' o'. rewrite Hos. intros [_ Ho']%lookup_delete_Some. eauto.
    + rewrite cancel_order_unknown by done. by intros [= <-].
  - destruct new_price; [done|]. destruct (orders b !! id) as [o|] eqn:Ho.
    + rewrite (modify_order_quantity _ _ _ _ Ho). intros [= <-].
      apply (no_stale_shrink b); [done| |].
      * intros sd e. by rewrite heap_amend_quantity.
      * intros id' o'. destruct new_quantity as [q|]; cbn; [|eauto].
        intros [(_ & x & Hx & ->)|[_ Hx]]%lookup_alter_Some; eauto.
    + rewrite modify_order_unknown by done. by intros [= <-].
  - intros [= <-]. apply (no_stale_shrink b); [done| |].
    + intros sd e. apply (elem_of_heap_get_best Buy).
    + intros id' o'. rewrite (orders_get_best Buy). eauto.
  - intros [= <-]. apply (no_stale_shrink b); [done| |].
    + intros sd e. apply (elem_of_heap_get_best Sell).
    + intros id' o'. rewrite (orders_get_best Sell). eauto.
  - intros [= <-]. rewrite get_spread_eq. cbn [snd]. fold (settled b).
    apply (no_stale_shrink b); [done| |].
    + intros sd e. apply elem_of_heap_settled.
    + intros id' o'. rewrite orders_settled. eauto.
  - destruct (get_order_book_snapshot_spec depth b Hwf)
      as (snap & b2 & -> & Hos & _ & Hh & _). intros [= <-].
    apply (no_stale_shrink b); [done| |].
    + intros sd e. by rewrite Hh.
    + intros id' o'. rewrite Hos. eauto.
  - destruct (match_orders b) as [[ts b1]|] eqn:E; [|done]. intros [= <-].
    eapply no_stale_pass; [done|done|]. by apply match_orders_pass.
Qed.

Lemma no_stale_run ops b b' :
  wf b → no_stale b → Forall no_reprice ops → NoDup (added_ids ops) →
  (∀ sd e, e ∈ heap sd b → e_id e ∉ added_ids ops) →
  run ops b = Some b' → no_stale b'.
Proof.
  revert b. induction ops as [|o ops IH]; intros b Hwf Hns Hnr Hnd Hnew; cbn.
  - by intros [= <-].
  - apply Forall_cons in Hnr as [Ho Hnr].
    change (added_ids (o :: ops)) with (added_id o ++ added_ids ops) in Hnd, Hnew.
    apply NoDup_app in Hnd as (_ & Hdisj & Hnd).
    destruct (step o b) as [b1|] eqn:E; [|done]. intros Hrun.
    apply (IH b1); [by eapply wf_step| |done|done| |done].
    + eapply no_stale_step; [done|done|done| |done].
      intros sd e He Hin. apply (Hnew sd e He). set_solver.
    + intros sd e He Hin.
      destruct (step_heap_ids _ _ _ _ _ Hwf Ho E He) as [Hold|Hadd].
      * apply (Hnew sd e Hold). set_solver.
      * by apply (Hdisj _ Hadd).
Qed.

Lemma no_stale_empty : no_stale empty_book.
Proof. intros [] e o He; by apply elem_of_nil in He. Qed.

(** X12. When no call amends a price and no id is passed to [add_order]
    twice, no heap entry is ever stale in price, and after [match_orders]
    the book is not crossed: the best bid is below the best ask, or a side
    has no resting order; a spread, when there is one, is positive. *)
Theorem clean_history_uncrossed
    (ops : list Op) (b : OrderBook) (ts : list Trade) (b' : OrderBook) :
  Forall no_reprice ops → NoDup (added_ids ops) →
  run ops empty_book = Some b → match_orders b = Some (ts, b') →
  no_stale b ∧ uncrossed b' ∧
  ∀ sp, (get_spread b').1 = Some sp → (0 < sp)%Qc.
Proof.
  intros Hnr Hnd Hrun Hm.
  assert (Hwf : wf b) by (eapply wf_run; [apply wf_empty|done]).
  assert (Hns : no_stale b).
  { apply (no_stale_run ops empty_book b wf_empty no_stale_empty Hnr Hnd);
      [|done].
    intros [] e He; by apply elem_of_nil in He. }
  pose proof (match_orders_pass _ _ _ Hm) as Hp.
  pose proof (wf_pass _ _ _ Hwf Hp) as Hwf'.
  pose proof (no_stale_pass _ _ _ Hwf Hns Hp) as Hns'.
  pose proof (quiet_pass _ _ _ Hwf Hp) as Hq.
  split; [done|]. split; [by apply no_stale_uncrossed|].
  intros sp. rewrite get_spread_eq. cbn [fst]. unfold quiet in Hq.
  destruct (get_best_bid b').1 as [bb|] eqn:Eb; [|done].
  destruct (get_best_ask b').1 as [ba|] eqn:Ea; [|done].
  intros [= <-]. apply (proj1 (Qclt_minus_iff bb ba)).
  destruct Hq as [Hlt|[Hnil|Hnil]]; [done| |]; exfalso.
  - exact (get_best_no_stale Buy b' bb Hwf' Hns' Eb Hnil).
  - exact (get_best_no_stale Sell b' ba Hwf' Hns' Ea Hnil).
Qed.

Lemma clean_history_uncrossed_witness :
  no_stale (book_of fresh_cross_ops) ∧
  uncrossed (default empty_book (snd <$> match_orders (book_of fresh_cross_ops))).
Proof.
  destruct (clean_history_uncrossed fresh_cross_ops (book_of fresh_cross_ops)
              [mkTrade "buy3" "sell1" (dec 102 1) 6]
              (default empty_book
                 (snd <$> match_orders (book_of fresh_cross_ops))))
    as (H1 & H2 & _).
  - repeat constructor.
  - apply (bool_decide_unpack _). vm_compute. exact I.
  - vm_compute. reflexivity.
  - vm_compute. reflexivity.
  - split; [exact H1|exact H2].
Defined.

(** ** Snapshots and best prices *)

(** With room for a level, the first price that the snapshot loop reports
    is the price of the first live entry. *)
Lemma snapshot_side_head sd depth temp :
  ∀ b res b', wf b → keys_sorted temp → 0 < depth →
  snapshot_side sd depth temp ∅ [] b = Some (res, b') →
  head (fst <$> res) = price_of_key sd <$> (discover (orders b) temp).1.
Proof.
  induction temp as [|e temp IH]; intros b res b' Hwf Hsorted Hd; simpl.
  { by intros [= <- <-]. }
  assert (Hs' : keys_sorted temp).
  { eapply keys_sorted_suffix; [|done]. by apply suffix_cons_r. }
  change (Z.of_nat 0) with 0.
  destruct (Z.ltb_spec 0 depth) as [_|]; [|lia].
  rewrite bool_decide_eq_true_2 by set_solver. cbn [andb].
  destruct (orders b !! e_id e) as [o|] eqn:E.
  - rewrite bool_decide_eq_true_2 by done. cbn [fst fmap option_fmap option_map].
    pose proof (bucket_dd_get (levels sd b) (price_of_key sd (e_key e))) as HL.
    destruct (dd_get (levels sd b) (price_of_key sd (e_key e))) as [ids L].
    cbn [snd] in HL.
    destruct (sum_quantity (orders b) ids) as [total|]; [|done].
    intros Hrun.
    destruct (snapshot_side_spec sd depth temp
                ({[price_of_key sd (e_key e)]} ∪ ∅)
                ([] ++ [(price_of_key sd (e_key e), total)])
                (set_levels sd L b))
      as (new & b2 & Hrun2 & _); [by apply wf_set_levels|done|].
    cbn [app] in Hrun2. rewrite Hrun in Hrun2. by simplify_eq.
  - rewrite bool_decide_eq_false_2 by (by intros [? ?]). by apply IH.
Qed.

Lemma get_best_fst_ext sd b1 b2 :
  orders b1 = orders b2 → heap sd b1 = heap sd b2 →
  (get_best sd b1).1 = (get_best sd b2).1.
Proof. intros Hos Hh. rewrite !get_best_eq. cbn. by rewrite Hos, Hh. Qed.

Lemma snapshot_heads depth b snap b' :
  wf b → 0 < depth → get_order_book_snapshot depth b = Some (snap, b') →
  head (fst <$> bids snap) = (get_best_bid b).1 ∧
  head (fst <$> asks snap) = (get_best_ask b).1.
Proof.
  intros Hwf Hd. unfold get_order_book_snapshot.
  destruct (snapshot_side_spec Buy depth (buy_orders b) ∅ [] b Hwf
              (wf_sorted _ Hwf Buy))
    as (bs & b1 & Hb & Hos1 & Hlv1 & Hh1 & _).
  cbn [app] in Hb. rewrite Hb.
  assert (Hwf1 : wf b1) by (by apply (wf_ext b)).
  destruct (snapshot_side Sell depth (sell_orders b1) ∅ [] b1)
    as [[ss b2]|] eqn:Hs; [|done].
  intros [= <- <-]. cbn [bids asks]. split.
  - rewrite (snapshot_side_head Buy depth _ b _ _ Hwf (wf_sorted _ Hwf Buy) Hd Hb).
    change (get_best_bid b) with (get_best Buy b).
    by rewrite (get_best_eq Buy b).
  - rewrite (snapshot_side_head Sell depth _ b1 _ _ Hwf1 (wf_sorted _ Hwf1 Sell)
               Hd Hs).
    change (get_best_ask b) with (get_best Sell b).
    rewrite <- (get_best_fst_ext Sell b1 b Hos1 (Hh1 Sell)).
    by rewrite (get_best_eq Sell b1).
Qed.

(** X13. The top of a snapshot is the best price: for a positive depth the
    first bid level has the price that [get_best_bid] reports and the first
    ask level the price that [get_best_ask] reports, and a side without a
    level is a side without a reported price. *)
Theorem snapshot_top_is_best
    (b : OrderBook) (depth : Z) (snap : Snapshot) (b' : OrderBook) :
  reachable b → 0 < depth →
  get_order_book_snapshot depth b = Some (snap, b') →
  head (fst <$> bids snap) = (get_best_bid b).1 ∧
  head (fst <$> asks snap) = (get_best_ask b).1.
Proof. intros Hr. apply snapshot_heads. by apply reachable_wf. Qed.

Lemma snapshot_top_is_best_witness :
  head (fst <$> [(dec 105 1, 0); (dec 95 1, 10)])
    = (get_best_bid (book_of repriced_ops)).1.
Proof.
  destruct (snapshot_top_is_best (book_of repriced_ops) 5
              (mkSnapshot [(dec 105 1, 0); (dec 95 1, 10)] [])
              (default empty_book
                 (snd <$> get_order_book_snapshot 5 (book_of repriced_ops))))
    as [H _].
  - exists repriced_ops. vm_compute. reflexivity.
  - lia.
  - vm_compute. reflexivity.
  - exact H.
Defined.

(** The snapshot loop reads a book through its id-map and its queues. *)
Lemma snapshot_side_ext sd depth temp :
  ∀ seen acc b1 b2, same_book b1 b2 →
  match snapshot_side sd depth temp seen acc b1,
        snapshot_side sd depth temp seen acc b2 with
  | Some (r1, c1), Some (r2, c2) => r1 = r2 ∧ same_book c1 c2
  | None, None => True
  | _, _ => False
  end.
Proof.
  induction temp as [|e temp IH]; intros seen acc b1 b2 Hsame; simpl; [done|].
  destruct (Z.of_nat (length acc) <? depth); [|done].
  destruct Hsame as (Hos & Hlv & Hh). rewrite Hos.
  destruct (bool_decide (price_of_key sd (e_key e) ∉ seen)
            && bool_decide (is_Some (orders b2 !! e_id e))).
  2:{ by apply IH. }
  pose proof (dd_get_fst (levels sd b1) (price_of_key sd (e_key e))) as Hi1.
  pose proof (dd_get_fst (levels sd b2) (price_of_key sd (e_key e))) as Hi2.
  pose proof (bucket_dd_get (levels sd b1) (price_of_key sd (e_key e))) as HL1.
  pose proof (bucket_dd_get (levels sd b2) (price_of_key sd (e_key e))) as HL2.
  destruct (dd_get (levels sd b1) _) as [ids1 L1].
  destruct (dd_get (levels sd b2) _) as [ids2 L2]. cbn [fst snd] in *.
  assert (ids1 = ids2) as -> by (rewrite Hi1, Hi2; apply Hlv).
  destruct (sum_quantity (orders b2) ids2) as [total|]; [|done].
  apply IH. split; [by rewrite !orders_set_levels|]. split.
  - intros sd' p'. rewrite !level_set_levels.
    case_decide; [subst; rewrite HL1, HL2; apply Hlv|apply Hlv].
  - intros sd'. by rewrite !heap_set_levels.
Qed.

Lemma get_order_book_snapshot_ext depth b1 b2 :
  same_book b1 b2 →
  fst <$> get_order_book_snapshot depth b1
  = fst <$> get_order_book_snapshot depth b2.
Proof.
  intros Hsame. unfold get_order_book_snapshot.
  pose proof Hsame as (_ & _ & Hh). pose proof (Hh Buy) as HhB. cbn in HhB.
  rewrite HhB.
  pose proof (snapshot_side_ext Buy depth (buy_orders b2) ∅ [] b1 b2 Hsame) as H1.
  destruct (snapshot_side Buy depth (buy_orders b2) ∅ [] b1) as [[r1 c1]|],
           (snapshot_side Buy depth (buy_orders b2) ∅ [] b2) as [[r2 c2]|];
    try done.
  destruct H1 as [-> Hc]. pose proof Hc as (_ & _ & Hhc).
  pose proof (Hhc Sell) as HhS. cbn in HhS. rewrite HhS.
  pose proof (snapshot_side_ext Sell depth (sell_orders c2) ∅ [] c1 c2 Hc) as H2.
  destruct (snapshot_side Sell depth (sell_orders c2) ∅ [] c1) as [[s1 d1]|],
           (snapshot_side Sell depth (sell_orders c2) ∅ [] c2) as [[s2 d2]|];
    try done.
  by destruct H2 as [-> _].
Qed.

(** X14. A snapshot can be repeated: taken again on the book that the
    first snapshot leaves, it returns the same levels, and the id-map, the
    queues and the heaps are still those of the book before the first. *)
Theorem snapshot_repeatable
    (b : OrderBook) (depth : Z) (snap : Snapshot) (b' : OrderBook) :
  reachable b → get_order_book_snapshot depth b = Some (snap, b') →
  ∃ b'', get_order_book_snapshot depth b' = Some (snap, b'') ∧ same_book b'' b.
Proof.
  intros Hr Hs. pose proof (reachable_wf _ Hr) as Hwf.
  destruct (get_order_book_snapshot_spec depth b Hwf)
    as (snap1 & b1 & Hs1 & Hos & Hlv & Hh & _).
  rewrite Hs in Hs1. simplify_eq.
  assert (Hsame : same_book b1 b) by done.
  assert (Hwf1 : wf b1) by (by apply (wf_ext b)).
  destruct (get_order_book_snapshot_spec depth b1 Hwf1)
    as (snap2 & b2 & Hs2 & Hos2 & Hlv2 & Hh2 & _).
  pose proof (get_order_book_snapshot_ext depth b1 b Hsame) as Hext.
  rewrite Hs, Hs2 in Hext. cbn in Hext. simplify_eq.
  exists b2. split; [done|]. split; [congruence|].
  split; [intros; by rewrite Hlv2|intros; by rewrite Hh2].
Qed.

Lemma snapshot_repeatable_witness :
  ∃ b'', get_order_book_snapshot 5
           (default empty_book
              (snd <$> get_order_book_snapshot 5 (book_of repriced_ops)))
         = Some (mkSnapshot [(dec 105 1, 0); (dec 95 1, 10)] [], b'').
Proof.
  destruct (snapshot_repeatable (book_of repriced_ops) 5
              (mkSnapshot [(dec 105 1, 0); (dec 95 1, 10)] [])
              (default empty_book
                 (snd <$> get_order_book_snapshot 5 (book_of repriced_ops))))
    as (b'' & H & _).
  - exists repriced_ops. vm_compute. reflexivity.
  - vm_compute. reflexivity.
  - exists b''. exact H.
Defined.

(** ** The display *)

Lemma display_order_book_eq depth b :
  display_order_book depth b =
  match get_order_book_snapshot depth b with
  | None => None
  | Some (snapshot, b1) =>
    Some (display_lines snapshot (get_spread b1).1, (get_spread b1).2)
  end.
Proof.
  unfold display_order_book.
  destruct (get_order_book_snapshot depth b) as [[snapshot b1]|]; [|done].
  by destruct (get_spread b1) as [sp b2].
Qed.

(** X15. [display_order_book] never raises on a reachable book and leaves
    the id-map and every queue as they are.  It prints the levels of the
    snapshot, the asks in reverse, and the spread of the book; for a
    positive depth that spread is the price of the first ask level minus the
    price of the first bid level, and no spread line is printed exactly when
    one of the two sides shows no level. *)
Theorem display_shows_the_spread_of_its_levels (b : OrderBook) (depth : Z) :
  reachable b → 0 < depth →
  ∃ snap b1 b',
    get_order_book_snapshot depth b = Some (snap, b1) ∧
    display_order_book depth b
      = Some (display_lines snap (get_spread b).1, b') ∧
    orders b' = orders b ∧
    (∀ sd p, level sd p b' = level sd p b) ∧
    (get_spread b).1 =
      match head (bids snap), head (asks snap) with
      | Some bid, Some ask => Some (fst ask - fst bid)%Qc
      | _, _ => None
      end.
Proof.
  intros Hr Hd. pose proof (reachable_wf _ Hr) as Hwf.
  destruct (get_order_book_snapshot_spec depth b Hwf)
    as (snap & b1 & Hs & Hos & Hlv & Hh & _).
  destruct (snapshot_heads depth b snap b1 Hwf Hd Hs) as [Hhb Hha].
  assert (Hsp : (get_spread b1).1 = (get_spread b).1).
  { rewrite !get_spread_eq. cbn [fst].
    pose proof (get_best_fst_ext Buy b1 b Hos (Hh Buy)) as HB.
    pose proof (get_best_fst_ext Sell b1 b Hos (Hh Sell)) as HS.
    cbn [get_best] in HB, HS. by rewrite HB, HS. }
  exists snap, b1, (get_spread b1).2. split; [done|].
  split; [by rewrite display_order_book_eq, Hs, Hsp|].
  rewrite get_spread_eq. cbn [snd fst]. fold (settled b1).
  split; [by rewrite orders_settled|].
  split; [intros; by rewrite level_settled|].
  rewrite (get_spread_eq b). cbn [fst]. rewrite <- Hhb, <- Hha.
  destruct (bids snap) as [|[pb qb] ?], (asks snap) as [|[pa qa] ?]; done.
Qed.

Lemma display_shows_the_spread_of_its_levels_witness :
  ∃ snap b1 b',
    get_order_book_snapshot 5 (book_of demo_ops) = Some (snap, b1) ∧
    display_order_book 5 (book_of demo_ops)
      = Some (display_lines snap (get_spread (book_of demo_ops)).1, b').
Proof.
  destruct (display_shows_the_spread_of_its_levels (book_of demo_ops) 5)
    as (snap & b1 & b' & Hs & Hdisp & _).
  - exists demo_ops. vm_compute. reflexivity.
  - lia.
  - exists snap, b1, b'. split; [exact Hs|exact Hdisp].
Defined.

(** ** The scenario of the source *)

(** X16. What [test_order_book] does, whatever the clock shows.  Its first
    [match_orders] returns the single trade (buy4, sell3, 101.5, 6) and its
    second the single trade (buy3, sell4, 99, 8).  At its end buy1 (15 at
    99) and sell4 (2 at 99) rest at the same price without having traded:
    the entry that buy1 left at 100 when it was re-priced makes
    [get_best_bid] report 100, and the queue at 100 is empty. *)
Theorem test_order_book_outcome (t1 t2 t3 t4 t5 t6 t7 t8 : Z) :
  ∃ out ob,
    test_order_book t1 t2 t3 t4 t5 t6 t7 t8
      = Some (out,
              [mkTrade "buy4" "sell3" (dec 1015 10) 6],
              [mkTrade "buy3" "sell4" (dec 99 1) 8],
              ob) ∧
    orders ob !! "buy1" = Some (mkOrder "buy1" "buy" (dec 99 1) 15 t1) ∧
    orders ob !! "sell4" = Some (mkOrder "sell4" "sell" (dec 99 1) 2 t8) ∧
    level Buy (dec 99 1) ob = ["buy1"] ∧
    level Sell (dec 99 1) ob = ["sell4"] ∧
    (get_best_bid ob).1 = Some (dec 100 1) ∧
    (get_best_ask ob).1 = Some (dec 99 1) ∧
    level Buy (dec 100 1) ob = [].
Proof.
  eexists _, (match test_order_book t1 t2 t3 t4 t5 t6 t7 t8 with
              | Some (_, _, _, ob) => ob
              | None => empty_book
              end).
  split; [vm_compute; reflexivity|].
  repeat split; vm_compute; reflexivity.
Qed.

(** ** No call raises *)

(** X17. On a reachable book no call raises: [list.remove] always finds the
    order in the queue of its own price, so [cancel_order], [modify_order],
    [match_orders], [get_order_book_snapshot] and [display_order_book]
    return for every argument. *)
Theorem reachable_calls_return (b : OrderBook) :
  reachable b →
  (∀ id, is_Some (cancel_order id b)) ∧
  (∀ id np nq, is_Some (modify_order id np nq b)) ∧
  is_Some (match_orders b) ∧
  (∀ depth, is_Some (get_order_book_snapshot depth b)) ∧
  (∀ depth, is_Some (display_order_book depth b)).
Proof.
  intros Hr. pose proof (reachable_wf _ Hr) as Hwf.
  split; [|split; [|split; [|split]]].
  - intros id. pose proof (step_returns (Cancel id) b Hwf) as [b' H].
    cbn in H. by destruct (cancel_order id b).
  - intros id np nq. pose proof (step_returns (Modify id np nq) b Hwf) as [b' H].
    cbn in H. by destruct (modify_order id np nq b).
  - destruct (match_orders_returns b Hwf) as (ts & b' & -> & _). done.
  - intros depth.
    destruct (get_order_book_snapshot_spec depth b Hwf) as (? & ? & -> & _). done.
  - intros depth. rewrite display_order_book_eq.
    destruct (get_order_book_snapshot_spec depth b Hwf) as (? & ? & -> & _). done.
Qed.

Lemma reachable_calls_return_witness :
  is_Some (cancel_order "b1" (book_of stale_ops)) ∧
  is_Some (match_orders (book_of stale_ops)).
Proof.
  destruct (reachable_calls_return (book_of stale_ops)) as (Hc & _ & Hm & _).
  - exists stale_ops. vm_compute. reflexivity.
  - split; [apply Hc|exact Hm].
Defined.

(** ** The ledgers, the id-map and the heaps agree *)

(** X18. On a reachable book the three structures agree.  An order in the
    id-map is stored under its own id, is in the queue of its own side and
    price, and has an entry for that price on the heap of its side; every
    id in a queue is the id of an order of that side and price; no queue
    holds an id twice; and both heaps are ordered by key. *)
Theorem structures_agree (b : OrderBook) :
  reachable b →
  (∀ id o, orders b !! id = Some o →
     order_id o = id ∧
     id ∈ level (side_of (side o)) (price o) b ∧
     mkEntry (heap_key (side_of (side o)) (price o)) (timestamp o) id
       ∈ heap (side_of (side o)) b) ∧
  (∀ sd p id, id ∈ level sd p b →
     ∃ o, orders b !! id = Some o ∧ side_of (side o) = sd ∧ price o = p) ∧
  (∀ sd p, NoDup (level sd p b)) ∧
  (∀ sd, StronglySorted Qcle (e_key <$> heap sd b)).
Proof.
  intros Hr. pose proof (reachable_wf _ Hr) as Hwf.
  split; [|split; [|split]].
  - intros id o Ho. pose proof (wf_id _ Hwf _ _ Ho) as Hid.
    split; [done|]. split; [by apply Hwf|].
    pose proof (wf_cover _ Hwf _ _ Ho) as Hc. unfold entry_of in Hc.
    by rewrite Hid in Hc.
  - apply Hwf.
  - apply Hwf.
  - apply Hwf.
Qed.

Lemma structures_agree_witness :
  ∀ sd p, NoDup (level sd p (book_of stale_ops)).
Proof.
  destruct (structures_agree (book_of stale_ops)) as (_ & _ & H & _).
  - exists stale_ops. vm_compute. reflexivity.
  - exact H.
Defined.

Lemma filter_ne_nil_iff (id : string) (l : list string) :
  NoDup l → id ∈ l → filter (λ y, y ≠ id) l = [] ↔ l = [id].
Proof.
  intros Hnd Hin. split.
  - intros Hnil. destruct l as [|x l]; [by apply elem_of_nil in Hin|].
    destruct (decide (x = id)) as [->|Hne].
    + destruct l as [|y l]; [done|]. exfalso.
      apply NoDup_cons in Hnd as [Hx _].
      rewrite filter_cons_False in Hnil by naive_solver.
      rewrite filter_cons_True in Hnil by set_solver. done.
    + rewrite filter_cons_True in Hnil by done. done.
  - intros ->. rewrite filter_cons_False by naive_solver. done.
Qed.

(** X19. What a cancellation changes and what it leaves.  The order leaves
    the id-map; in the ledger of its side the key of its price is deleted
    when the order was alone in its queue and otherwise holds the queue
    without it, in the same order; every other key of that ledger, the
    other ledger, every other order and both heaps are untouched. *)
Theorem cancel_frame (b : OrderBook) (id : string) (o : Order) :
  reachable b → orders b !! id = Some o →
  ∃ b', cancel_order id b = Some (true, b') ∧
    orders b' = delete id (orders b) ∧
    levels (side_of (side o)) b' !! price o =
      (if decide (level (side_of (side o)) (price o) b = [id]) then None
       else Some (filter (λ y, y ≠ id) (level (side_of (side o)) (price o) b))) ∧
    (∀ p, p ≠ price o →
       levels (side_of (side o)) b' !! p = levels (side_of (side o)) b !! p) ∧
    (∀ sd, sd ≠ side_of (side o) → levels sd b' = levels sd b) ∧
    buy_orders b' = buy_orders b ∧ sell_orders b' = sell_orders b.
Proof.
  intros Hr Ho. pose proof (reachable_wf _ Hr) as Hwf.
  pose proof (wf_nodup _ Hwf (side_of (side o)) (price o)) as Hnd.
  pose proof (wf_rests _ Hwf _ _ Ho) as Hin.
  unfold cancel_order. rewrite Ho. unfold remove_from_level.
  fold (level (side_of (side o)) (price o) b).
  rewrite (list_remove_elem_of _ _ Hnd Hin).
  pose proof (filter_ne_nil_iff id _ Hnd Hin) as Hnil.
  destruct (filter (λ y, y ≠ id) (level (side_of (side o)) (price o) b))
    as [|x l] eqn:E.
  - eexists. split; [done|]. split; [done|].
    rewrite decide_True by (by apply Hnil).
    destruct (side_of (side o)); cbn; (split; [apply lookup_delete_eq|]);
      (split; [intros p Hp; by apply lookup_delete_ne|]);
      (split; [by intros []|done]).
  - eexists. split; [done|]. split; [done|].
    rewrite decide_False by (intros H; by apply Hnil in H).
    destruct (side_of (side o)); cbn; (split; [apply lookup_insert_eq|]);
      (split; [intros p Hp; by apply lookup_insert_ne|]);
      (split; [by intros []|done]).
Qed.

Lemma cancel_frame_witness :
  ∃ b', cancel_order "buy1" (book_of demo_ops) = Some (true, b') ∧
        price_levels_buy b' !! dec 100 1 = None.
Proof.
  destruct (cancel_frame (book_of demo_ops) "buy1"
              (mkOrder "buy1" "buy" (dec 100 1) 10 1))
    as (b' & Hc & _ & Hk & _).
  - exists demo_ops. vm_compute. reflexivity.
  - vm_compute. reflexivity.
  - exists b'. split; [exact Hc|].
    etransitivity; [exact Hk|]. vm_compute. reflexivity.
Defined.

(** X20. A price amendment is a cancellation followed by an add that keeps
    the clock reading of the order: [modify_order] with a new price leaves
    the book that [add_order], called with the old timestamp, the old side,
    the new price and the new (or else the old) quantity, leaves of the book
    after [cancel_order]. *)
Theorem amend_price_is_cancel_then_add
    (b : OrderBook) (id : string) (o : Order) (np : Qc) (nq : option Z) :
  reachable b → orders b !! id = Some o →
  ∃ bc, cancel_order id b = Some (true, bc) ∧
    modify_order id (Some np) nq b
    = Some (true,
            (add_order (timestamp o) id (side o) np
               (default (quantity o) nq) bc).2).
Proof.
  intros Hr Ho. pose proof (reachable_wf _ Hr) as Hwf.
  pose proof (wf_id _ Hwf _ _ Ho) as Hid.
  destruct (modify_order_price id o np nq b Hwf Ho) as (bc & Hc & ->).
  destruct (cancel_order_resting _ _ _ Hwf Ho) as (bc' & Hc' & Hos & _).
  rewrite Hc' in Hc. simplify_eq. exists bc. split; [done|].
  rewrite add_order_fresh by (rewrite Hos; apply lookup_delete_eq).
  cbn [snd]. do 2 f_equal. destruct nq as [q|]; cbn [amend_quantity default].
  - unfold insert_order. cbn [set_price side price order_id timestamp quantity].
    destruct (side_of (side o)); destruct bc; cbn; by rewrite alter_insert_eq.
  - by destruct o.
Qed.

Lemma amend_price_is_cancel_then_add_witness :
  ∃ bc, cancel_order "buy1" (book_of demo_ops) = Some (true, bc) ∧
    modify_order "buy1" (Some (dec 101 1)) (Some 4) (book_of demo_ops)
    = Some (true, (add_order 1 "buy1" "buy" (dec 101 1) 4 bc).2).
Proof.
  apply (amend_price_is_cancel_then_add (book_of demo_ops) "buy1"
           (mkOrder "buy1" "buy" (dec 100 1) 10 1) (dec 101 1) (Some 4)).
  - exists demo_ops. vm_compute. reflexivity.
  - vm_compute. reflexivity.
Defined.
